(** * RcSocket: a reconnecting WebSocket wrapper

    Shallow embedding of [dist/common/rc-socket.js].  The RcSocket object is
    a record of its fields; the host environment (pending timers, the clock,
    the transports created so far and everything the object did to the
    outside) is a second record, threaded explicitly through every method.
    Methods keep the names they have in the source.

    JavaScript numbers are modelled by [Z]: every number the code computes
    with is an integer (durations in ms, the attempt counter, ready states).
    Owner handlers are opaque: calling one is recorded as an effect, and what
    an owner does in reaction is a separate [event]. *)

From Stdlib Require Import ZArith List Bool String Lia PeanoNat.
Import ListNotations.
Open Scope Z_scope.

(** ** Values *)

(** What [send] can be handed: a payload, or [undefined] (which is what
    [this.queue[index]] evaluates to when [index] is out of range). *)
Inductive jsval : Type :=
| JUndefined
| JData (d : string).

(** The handler slots [_trigger] dispatches to. *)
Inductive evtName : Type :=
| onconnecting | onopen | onmessage | onerror | onclose | ontimeout.

Definition evtName_eqb (a b : evtName) : bool :=
  match a, b with
  | onconnecting, onconnecting | onopen, onopen | onmessage, onmessage
  | onerror, onerror | onclose, onclose | ontimeout, ontimeout => true
  | _, _ => false
  end.

(** The event object handed to a handler: nothing, the transport's event
    proxied as it is, or a close event after [_onclose] has written
    [forced], [isRetrying] and [isRefreshing] on it. *)
Inductive jsEvt : Type :=
| EvUndefined
| EvRaw (raw : string)
| EvClose (raw : string) (forced isRetrying isRefreshing : bool).

(** [WebSocket.CONNECTING], [WebSocket.OPEN], [WebSocket.CLOSING],
    [WebSocket.CLOSED]. *)
Definition CONNECTING : Z := 0.
Definition OPEN : Z := 1.
Definition CLOSING : Z := 2.
Definition CLOSED : Z := 3.

(** ** The object *)

Record RcSocket : Type := mkRcSocket {
  url : string;
  protocols : list string;
  debug : bool;
  timeout : Z;
  maxRetry : Z;
  delay : Z;
  hasUnloaded : bool;
  hasOpened : bool;
  wasForced : bool;
  isRetrying : bool;
  isRefreshing : bool;
  attempts : Z;
  queue : list jsval;
  ws : option nat;            (* the transport, by identity; [None] is null/undefined *)
  connectTimer : option nat;  (* timer id; [None] is undefined *)
  readyState : option Z;      (* [None] is undefined *)
  handlers : evtName -> bool  (* is a handler assigned to the slot? *)
}.

Definition set_debug v s := mkRcSocket (url s) (protocols s) v (timeout s) (maxRetry s) (delay s) (hasUnloaded s) (hasOpened s) (wasForced s) (isRetrying s) (isRefreshing s) (attempts s) (queue s) (ws s) (connectTimer s) (readyState s) (handlers s).
Definition set_timeout v s := mkRcSocket (url s) (protocols s) (debug s) v (maxRetry s) (delay s) (hasUnloaded s) (hasOpened s) (wasForced s) (isRetrying s) (isRefreshing s) (attempts s) (queue s) (ws s) (connectTimer s) (readyState s) (handlers s).
Definition set_maxRetry v s := mkRcSocket (url s) (protocols s) (debug s) (timeout s) v (delay s) (hasUnloaded s) (hasOpened s) (wasForced s) (isRetrying s) (isRefreshing s) (attempts s) (queue s) (ws s) (connectTimer s) (readyState s) (handlers s).
Definition set_delay v s := mkRcSocket (url s) (protocols s) (debug s) (timeout s) (maxRetry s) v (hasUnloaded s) (hasOpened s) (wasForced s) (isRetrying s) (isRefreshing s) (attempts s) (queue s) (ws s) (connectTimer s) (readyState s) (handlers s).
Definition set_hasUnloaded v s := mkRcSocket (url s) (protocols s) (debug s) (timeout s) (maxRetry s) (delay s) v (hasOpened s) (wasForced s) (isRetrying s) (isRefreshing s) (attempts s) (queue s) (ws s) (connectTimer s) (readyState s) (handlers s).
Definition set_hasOpened v s := mkRcSocket (url s) (protocols s) (debug s) (timeout s) (maxRetry s) (delay s) (hasUnloaded s) v (wasForced s) (isRetrying s) (isRefreshing s) (attempts s) (queue s) (ws s) (connectTimer s) (readyState s) (handlers s).
Definition set_wasForced v s := mkRcSocket (url s) (protocols s) (debug s) (timeout s) (maxRetry s) (delay s) (hasUnloaded s) (hasOpened s) v (isRetrying s) (isRefreshing s) (attempts s) (queue s) (ws s) (connectTimer s) (readyState s) (handlers s).
Definition set_isRetrying v s := mkRcSocket (url s) (protocols s) (debug s) (timeout s) (maxRetry s) (delay s) (hasUnloaded s) (hasOpened s) (wasForced s) v (isRefreshing s) (attempts s) (queue s) (ws s) (connectTimer s) (readyState s) (handlers s).
Definition set_isRefreshing v s := mkRcSocket (url s) (protocols s) (debug s) (timeout s) (maxRetry s) (delay s) (hasUnloaded s) (hasOpened s) (wasForced s) (isRetrying s) v (attempts s) (queue s) (ws s) (connectTimer s) (readyState s) (handlers s).
Definition set_attempts v s := mkRcSocket (url s) (protocols s) (debug s) (timeout s) (maxRetry s) (delay s) (hasUnloaded s) (hasOpened s) (wasForced s) (isRetrying s) (isRefreshing s) v (queue s) (ws s) (connectTimer s) (readyState s) (handlers s).
Definition set_queue v s := mkRcSocket (url s) (protocols s) (debug s) (timeout s) (maxRetry s) (delay s) (hasUnloaded s) (hasOpened s) (wasForced s) (isRetrying s) (isRefreshing s) (attempts s) v (ws s) (connectTimer s) (readyState s) (handlers s).
Definition set_ws v s := mkRcSocket (url s) (protocols s) (debug s) (timeout s) (maxRetry s) (delay s) (hasUnloaded s) (hasOpened s) (wasForced s) (isRetrying s) (isRefreshing s) (attempts s) (queue s) v (connectTimer s) (readyState s) (handlers s).
Definition set_connectTimer v s := mkRcSocket (url s) (protocols s) (debug s) (timeout s) (maxRetry s) (delay s) (hasUnloaded s) (hasOpened s) (wasForced s) (isRetrying s) (isRefreshing s) (attempts s) (queue s) (ws s) v (readyState s) (handlers s).
Definition set_readyState v s := mkRcSocket (url s) (protocols s) (debug s) (timeout s) (maxRetry s) (delay s) (hasUnloaded s) (hasOpened s) (wasForced s) (isRetrying s) (isRefreshing s) (attempts s) (queue s) (ws s) (connectTimer s) v (handlers s).
Definition set_handlers v s := mkRcSocket (url s) (protocols s) (debug s) (timeout s) (maxRetry s) (delay s) (hasUnloaded s) (hasOpened s) (wasForced s) (isRetrying s) (isRefreshing s) (attempts s) (queue s) (ws s) (connectTimer s) (readyState s) v.

(** ** The environment *)

(** The three functions the code hands to [setTimeout]. *)
Inductive callback : Type :=
| CbConnect                   (* [this._connect.bind(this)] *)
| CbConnectTimeout            (* the function armed in [_connect] *)
| CbQueueSend (index : nat).  (* the function armed in [_delayQueueSend] *)

Record timer : Type := mkTimer { tid : nat; due : Z; cb : callback }.

(** What the object does to the outside world. *)
Inductive effect : Type :=
| NewWebSocket (id : nat) (u : string) (ps : list string)
| WsSend (id : nat) (d : jsval)
| WsClose (id : nat)
| LoggerDebug (name : evtName) (u : string) (e : jsEvt)
| Handler (name : evtName) (e : jsEvt).

Record World : Type := mkWorld {
  sock : RcSocket;
  debugAll : bool;         (* [RcSocket.debugAll] *)
  timers : list timer;     (* pending timers, oldest first *)
  nextTimer : nat;         (* next id [setTimeout] returns *)
  nextWs : nat;            (* identity of the next transport *)
  now : Z;                 (* the clock, ms *)
  log : list effect        (* effects so far, oldest first *)
}.

Definition upd (f : RcSocket -> RcSocket) (w : World) : World :=
  mkWorld (f (sock w)) (debugAll w) (timers w) (nextTimer w) (nextWs w) (now w) (log w).
Definition set_debugAll v w := mkWorld (sock w) v (timers w) (nextTimer w) (nextWs w) (now w) (log w).
Definition set_timers v w := mkWorld (sock w) (debugAll w) v (nextTimer w) (nextWs w) (now w) (log w).
Definition set_nextTimer v w := mkWorld (sock w) (debugAll w) (timers w) v (nextWs w) (now w) (log w).
Definition set_nextWs v w := mkWorld (sock w) (debugAll w) (timers w) (nextTimer w) v (now w) (log w).
Definition set_now v w := mkWorld (sock w) (debugAll w) (timers w) (nextTimer w) (nextWs w) v (log w).
Definition emit (e : effect) (w : World) : World :=
  mkWorld (sock w) (debugAll w) (timers w) (nextTimer w) (nextWs w) (now w) (log w ++ [e]).

(** [setTimeout(f, ms)]: a negative duration counts as zero. *)
Definition setTimeout (c : callback) (ms : Z) (w : World) : nat * World :=
  let id := nextTimer w in
  (id, set_nextTimer (S id)
         (set_timers (timers w ++ [mkTimer id (now w + Z.max 0 ms) c]) w)).

Fixpoint remove_timer (id : nat) (l : list timer) : list timer :=
  match l with
  | [] => []
  | t :: l' => if Nat.eqb (tid t) id then l' else t :: remove_timer id l'
  end.

Definition find_timer (id : nat) (l : list timer) : option timer :=
  find (fun t => Nat.eqb (tid t) id) l.

(** [clearTimeout(id)]; [clearTimeout(undefined)] does nothing. *)
Definition clearTimeout (id : option nat) (w : World) : World :=
  match id with
  | Some i => set_timers (remove_timer i (timers w)) w
  | None => w
  end.

(** ** Helpers *)

(** What [_trigger] does for an event: the debug line, then the handler. *)
Definition trigger_effects (s : RcSocket) (dAll : bool) (name : evtName) (e : jsEvt)
  : list effect :=
  (if debug s || dAll then [LoggerDebug name (url s) e] else [])
  ++ (if handlers s name then [Handler name e] else []).

Definition _trigger (name : evtName) (e : jsEvt) (w : World) : World :=
  let w := if debug (sock w) || debugAll w
           then emit (LoggerDebug name (url (sock w)) e) w else w in
  if handlers (sock w) name then emit (Handler name e) w else w.

Definition _stateChanged (state : Z) (name : evtName) (e : jsEvt) (w : World) : World :=
  _trigger name e (upd (set_readyState (Some state)) w).

(** ** Public methods *)

(** [if (this.ws) this.ws.close()] *)
Definition _close (w : World) : World :=
  match ws (sock w) with
  | Some x => emit (WsClose x) w
  | None => w
  end.

Definition close (w : World) : World := _close (upd (set_wasForced true) w).
Definition retry (w : World) : World := _close (upd (set_isRetrying true) w).
Definition refresh (w : World) : World := _close (upd (set_isRefreshing true) w).

(** Truthiness of [this.readyState]. *)
Definition truthy (r : option Z) : bool :=
  match r with
  | Some n => negb (n =? 0)
  | None => false
  end.

(** [this.queue.unshift(data)]: the newest entry is at the front. *)
Definition send (data : jsval) (w : World) : World :=
  match ws (sock w) with
  | Some x =>
      if truthy (readyState (sock w)) then emit (WsSend x data) w
      else upd (fun s => set_queue (data :: queue s) s) w
  | None => upd (fun s => set_queue (data :: queue s) s) w
  end.

(** ** WebSocket management *)

Definition _connect (w : World) : World :=
  let x := nextWs w in
  let w := emit (NewWebSocket x (url (sock w)) (protocols (sock w)))
             (set_nextWs (S x) (upd (set_ws (Some x)) w)) in
  let (t, w) := setTimeout CbConnectTimeout (timeout (sock w)) w in
  let w := upd (set_connectTimer (Some t)) w in
  _stateChanged CONNECTING onconnecting EvUndefined w.

(** The first two lines of [_reconnect]. *)
Definition reconnect_interval (s : RcSocket) : Z :=
  let interval := (2 ^ attempts s - 1) * 1000 in
  if interval >? maxRetry s then maxRetry s else interval.

Definition _reconnect (w : World) : World :=
  let interval := reconnect_interval (sock w) in
  let w := upd (fun s => set_attempts (attempts s + 1) s) w in
  snd (setTimeout CbConnect interval w).

Definition _delayQueueSend (index : nat) (delayMultiplier : Z) (w : World) : World :=
  snd (setTimeout (CbQueueSend index) (delay (sock w) * delayMultiplier) w).

(** [while (index--) this._delayQueueSend(index, length - index)] *)
Fixpoint _sendQueued_loop (length index : nat) (w : World) : World :=
  match index with
  | O => w
  | S i => _sendQueued_loop length i (_delayQueueSend i (Z.of_nat (length - i)) w)
  end.

Definition _sendQueued (w : World) : World :=
  let length := List.length (queue (sock w)) in
  _sendQueued_loop length length w.

Definition _onopen (raw : string) (w : World) : World :=
  let w := clearTimeout (connectTimer (sock w)) w in
  if wasForced (sock w) then close w
  else
    let w := upd (set_hasOpened true) w in
    let w := upd (set_attempts 1) w in
    let w := _stateChanged OPEN onopen (EvRaw raw) w in
    _sendQueued w.

(** The event object after [_onclose] has written the three flags on it. *)
Definition close_event (s : RcSocket) (raw : string) : jsEvt :=
  EvClose raw (wasForced s) (isRetrying s) (isRefreshing s).

Definition _onclose (raw : string) (w : World) : World :=
  let w := clearTimeout (connectTimer (sock w)) w in
  let w := upd (set_ws None) w in
  let evt := close_event (sock w) raw in
  if wasForced (sock w) then _stateChanged CLOSED onclose evt w
  else if negb (hasUnloaded (sock w)) then
    let w := if hasOpened (sock w) then _trigger onclose evt w else w in
    let w := upd (set_isRetrying false) w in
    let w := upd (set_isRefreshing false) w in
    let w := upd (set_hasOpened false) w in
    _reconnect w
  else w.

Definition _onmessage (raw : string) (w : World) : World := _trigger onmessage (EvRaw raw) w.
Definition _onerror (raw : string) (w : World) : World := _trigger onerror (EvRaw raw) w.

(** ** Timer callbacks *)

Definition run_callback (c : callback) (w : World) : World :=
  match c with
  | CbConnect => _connect w
  | CbConnectTimeout => retry (_trigger ontimeout EvUndefined w)
  | CbQueueSend index =>
      (* [this.send(this.queue[index]); this.queue.pop();] *)
      let w := send (nth index (queue (sock w)) JUndefined) w in
      upd (fun s => set_queue (removelast (queue s)) s) w
  end.

(** ** Construction *)

Definition new_RcSocket (u : string) (ps : list string) : World :=
  let s := mkRcSocket u ps false 2500 1000 100
             false false false false false 1 [] None None None (fun _ => false) in
  snd (setTimeout CbConnect 0 (mkWorld s false [] 0%nat 0%nat 0 [])).

(** ** Events: everything that can run code of the object *)

Inductive event : Type :=
(* the owner *)
| OwnerSend (d : jsval)
| OwnerClose
| OwnerRetry
| OwnerRefresh
| OwnerAssignHandler (name : evtName) (assigned : bool)
| OwnerAssignDebug (v : bool)
| OwnerAssignDebugAll (v : bool)
| OwnerAssignTimeout (v : Z)
| OwnerAssignMaxRetry (v : Z)
| OwnerAssignDelay (v : Z)
(* the window *)
| BeforeUnload
(* the transport *)
| TransportOpen (raw : string)
| TransportClose (raw : string)
| TransportMessage (raw : string)
| TransportError (raw : string)
(* the timer queue *)
| TimerFires (id : nat)
| TimePasses (ms : Z).

Definition step (w : World) (e : event) : World :=
  match e with
  | OwnerSend d => send d w
  | OwnerClose => close w
  | OwnerRetry => retry w
  | OwnerRefresh => refresh w
  | OwnerAssignHandler name b =>
      upd (fun s => set_handlers
                      (fun n => if evtName_eqb n name then b else handlers s n) s) w
  | OwnerAssignDebug v => upd (set_debug v) w
  | OwnerAssignDebugAll v => set_debugAll v w
  | OwnerAssignTimeout v => upd (set_timeout v) w
  | OwnerAssignMaxRetry v => upd (set_maxRetry v) w
  | OwnerAssignDelay v => upd (set_delay v) w
  | BeforeUnload => upd (set_hasUnloaded true) w
  | TransportOpen raw => _onopen raw w
  | TransportClose raw => _onclose raw w
  | TransportMessage raw => _onmessage raw w
  | TransportError raw => _onerror raw w
  | TimerFires id =>
      match find_timer id (timers w) with
      | Some t =>
          if due t <=? now w
          then run_callback (cb t) (set_timers (remove_timer id (timers w)) w)
          else w
      | None => w
      end
  | TimePasses ms => if 0 <=? ms then set_now (now w + ms) w else w
  end.

Definition run (w : World) (evs : list event) : World := fold_left step evs w.

(** A transport signal can only come from the transport the object holds. *)
Definition enabled (w : World) (e : event) : bool :=
  match e with
  | TransportOpen _ | TransportClose _ | TransportMessage _ | TransportError _ =>
      match ws (sock w) with Some _ => true | None => false end
  | _ => true
  end.

Inductive reachable : World -> Prop :=
| reachable_new : forall u ps, reachable (new_RcSocket u ps)
| reachable_step : forall w e,
    reachable w -> enabled w e = true -> reachable (step w e).

(** ** Vocabulary for the statements *)

(** The timers one run of the loop of [_sendQueued] arms, in the order it
    arms them: index [i - 1] first, with multiplier [len - (i - 1)]. *)
Fixpoint flush_timers (len i id : nat) (t0 dl : Z) : list timer :=
  match i with
  | O => []
  | S i' =>
      mkTimer id (t0 + Z.max 0 (dl * Z.of_nat (len - i'))) (CbQueueSend i')
      :: flush_timers len i' (S id) t0 dl
  end.

Definition is_connect (t : timer) : bool :=
  match cb t with CbConnect => true | _ => false end.

(** Reconnect (or first connect) timers still pending. *)
Definition pending_connects (w : World) : nat :=
  List.length (filter is_connect (timers w)).

Definition is_new_transport (e : effect) : bool :=
  match e with NewWebSocket _ _ _ => true | _ => false end.

(** Connect attempts made so far: transports created. *)
Definition connect_attempts (w : World) : nat :=
  List.length (filter is_new_transport (log w)).

(** The transport's close signal with neither [wasForced] nor
    [hasUnloaded] set: the branch of [_onclose] that calls [_reconnect]. *)
Definition enters_reconnect_wait (w : World) (e : event) : bool :=
  match e with
  | TransportClose _ => negb (wasForced (sock w)) && negb (hasUnloaded (sock w))
  | _ => false
  end.

(** The transport's open signal with [wasForced] clear: the branch of
    [_onopen] that calls [_stateChanged('OPEN', ...)]. *)
Definition reaches_open (w : World) (e : event) : bool :=
  match e with
  | TransportOpen _ => negb (wasForced (sock w))
  | _ => false
  end.




(** The shape of the timer queue in reachable states: ids are fresh and
    distinct; a pending connect timeout is the one [connectTimer] names and
    guards a transport; a pending connect has no transport beside it and is
    alone. *)
Definition TOK (ts : list timer) (nt : nat) (ct x : option nat) : Prop :=
  (forall t, In t ts -> (tid t < nt)%nat)
  /\ NoDup (map tid ts)
  /\ (forall t, In t ts -> cb t = CbConnectTimeout -> ct = Some (tid t) /\ x <> None)
  /\ (forall t, In t ts -> cb t = CbConnect -> x = None)
  /\ (List.length (filter is_connect ts) <= 1)%nat.

Definition timers_ok (w : World) : Prop :=
  TOK (timers w) (nextTimer w) (connectTimer (sock w)) (ws (sock w)).



(** The payloads handed to a transport so far, oldest first. *)
Definition deliveries (w : World) : list jsval :=
  flat_map (fun e => match e with WsSend _ d => [d] | _ => [] end) (log w).

(** What a step may do to the outside, read against the state it starts
    from: a handler is called only through an assigned slot, a debug line is
    written only with a debug flag on, and the transport addressed is the one
    the object holds. *)
Definition effect_allowed (w : World) (e : effect) : Prop :=
  match e with
  | Handler name _ => handlers (sock w) name = true
  | LoggerDebug _ u _ => debug (sock w) || debugAll w = true /\ u = url (sock w)
  | WsSend x _ => ws (sock w) = Some x /\ truthy (readyState (sock w)) = true
  | WsClose x => ws (sock w) = Some x
  | NewWebSocket x u ps =>
      x = nextWs w /\ u = url (sock w) /\ ps = protocols (sock w)
  end.

(** The ready states the object ever assigns. *)
Definition readyState_assigned (r : option Z) : Prop :=
  r = None \/ r = Some CONNECTING \/ r = Some OPEN \/ r = Some CLOSED.

(** While a connect or a connect timeout is pending the connection has not
    opened. *)
Definition unopened_while_waiting (w : World) : Prop :=
  forall t, In t (timers w) ->
            cb t = CbConnect \/ cb t = CbConnectTimeout ->
            hasOpened (sock w) = false.

Definition quiet_effect (e : effect) : bool :=
  match e with LoggerDebug _ _ _ => false | _ => true end.

(** A world with the debug flags off and the debug lines taken out of the
    effect log. *)
Definition without_debug (w : World) : World :=
  mkWorld (set_debug false (sock w)) false (timers w) (nextTimer w) (nextWs w)
          (now w) (filter quiet_effect (log w)).

(** Events that run none of the object's timers and come from no
    transport: the owner's calls and assignments, the unload notice, the
    clock. *)
Definition is_owner_or_clock (e : event) : bool :=
  match e with
  | TimerFires _ | TransportOpen _ | TransportClose _
  | TransportMessage _ | TransportError _ => false
  | _ => true
  end.

(** The payloads the owner sends in a sequence of events, in order. *)
Definition sent_payloads (evs : list event) : list jsval :=
  flat_map (fun e => match e with OwnerSend d => [d] | _ => [] end) evs.

Definition is_proxied (e : event) : bool :=
  match e with TransportMessage _ | TransportError _ => true | _ => false end.

(** What proxying one message or error signal logs. *)
Definition proxied_effects (s : RcSocket) (dA : bool) (e : event) : list effect :=
  match e with
  | TransportMessage raw => trigger_effects s dA onmessage (EvRaw raw)
  | TransportError raw => trigger_effects s dA onerror (EvRaw raw)
  | _ => []
  end.

(** * Basic facts about the helpers *)

Lemma trigger_eq : forall name e w,
  _trigger name e w =
  mkWorld (sock w) (debugAll w) (timers w) (nextTimer w) (nextWs w) (now w)
          (log w ++ trigger_effects (sock w) (debugAll w) name e).
Proof.
  intros name e [s dA ts nt nw n l]; unfold _trigger, trigger_effects, emit; simpl.
  destruct (debug s || dA); simpl; destruct (handlers s name); simpl;
    rewrite <- ?app_assoc, ?app_nil_r; reflexivity.
Qed.

Lemma sendQueued_loop_eq : forall len i w,
  _sendQueued_loop len i w =
  mkWorld (sock w) (debugAll w)
          (timers w ++ flush_timers len i (nextTimer w) (now w) (delay (sock w)))
          (nextTimer w + i) (nextWs w) (now w) (log w).
Proof.
  intros len i; induction i as [|i IH]; intros [s dA ts nt nw n l]; simpl.
  - rewrite app_nil_r, Nat.add_0_r; reflexivity.
  - rewrite IH; unfold _delayQueueSend, setTimeout; simpl.
    rewrite <- app_assoc, Nat.add_succ_r; reflexivity.
Qed.


Ltac break_world w :=
  let s := fresh "s" in
  destruct w as [s dA ts nt nw n l];
  destruct s as [u ps dbg tmo mr dl hU hO wF iRt iRf att q x ct rs hs];
  simpl in *.

Ltac unfold_methods :=
  cbv beta iota zeta delta
    [step _onopen _onclose _onmessage _onerror run_callback _connect
     close retry refresh _close send _stateChanged _sendQueued _reconnect
     _delayQueueSend clearTimeout setTimeout fst snd negb andb orb
     emit upd set_timers set_nextTimer set_nextWs set_now set_debugAll
     set_debug set_timeout set_maxRetry set_delay set_hasUnloaded set_hasOpened
     set_wasForced set_isRetrying set_isRefreshing set_attempts set_queue set_ws
     set_connectTimer set_readyState set_handlers
     sock debugAll timers nextTimer nextWs now log
     url protocols debug timeout maxRetry delay hasUnloaded hasOpened wasForced
     isRetrying isRefreshing attempts queue ws connectTimer readyState handlers].

Ltac methods :=
  unfold_methods; rewrite ?trigger_eq, ?sendQueued_loop_eq;
  unfold_methods; rewrite ?trigger_eq, ?sendQueued_loop_eq;
  unfold_methods.

Ltac split_ifs :=
  repeat match goal with
    | |- context [if ?b then _ else _] => destruct b eqn:?
    | |- context [match ?o with Some _ => _ | None => _ end] => destruct o eqn:?
    end.

Ltac cases_event e :=
  destruct e as [d| | | |name assigned|v|v|v|v|v| |raw|raw|raw|raw|i|ms].

(** Case analysis on the event and on every test the code makes on the way:
    the tests are settled before the methods are unfolded. *)
Ltac by_cases w e :=
  let x := fresh "x" in
  let ct := fresh "ct" in
  let rs := fresh "rs" in
  let wF := fresh "wF" in
  let hU := fresh "hU" in
  let hO := fresh "hO" in
  let n := fresh "n" in
  let s := fresh "s" in
  cases_event e;
  destruct w as [s ? ? ? ? n ?];
  destruct s as [? ? ? ? ? ? hU hO wF ? ? ? ? x ct rs ?];
  simpl in *;
  unfold enters_reconnect_wait, reaches_open, enabled,
         pending_connects, connect_attempts in *;
  [ destruct x
  | destruct x | destruct x | destruct x
  | | | | | | |
  | destruct ct, wF, x
  | destruct ct, wF, hU, hO
  | |
  | unfold step; cbn [timers now];
    match goal with
    | |- context [match find_timer ?i ?l with _ => _ end] =>
        let t := fresh "t" in
        destruct (find_timer i l) as [t|] eqn:?;
        [destruct (due t <=? n) eqn:?;
         [destruct (cb t) eqn:?; [|destruct x|destruct x]|]|]
    end
  | unfold step;
    match goal with
    | |- context [if 0 <=? ?m then _ else _] => destruct (0 <=? m) eqn:?
    end ];
  methods; split_ifs; unfold_methods.

(** * Backoff *)

Lemma reconnect_interval_min : forall s,
  reconnect_interval s = Z.min (maxRetry s) ((2 ^ attempts s - 1) * 1000).
Proof.
  intros s; unfold reconnect_interval; cbv zeta.
  destruct (Z.gtb_spec ((2 ^ attempts s - 1) * 1000) (maxRetry s)); lia.
Qed.



Lemma attempts_step : forall w e,
  attempts (sock (step w e)) =
  if enters_reconnect_wait w e then attempts (sock w) + 1
  else if reaches_open w e then 1
  else attempts (sock w).
Proof. intros w e; by_cases w e; reflexivity. Qed.

Lemma attempts_positive : forall w, reachable w -> 1 <= attempts (sock w).
Proof.
  induction 1 as [u ps|w e Hr IH He].
  - simpl; lia.
  - rewrite attempts_step.
    destruct (enters_reconnect_wait w e); [lia|].
    destruct (reaches_open w e); lia.
Qed.

Lemma pending_connects_app : forall ts ts',
  List.length (filter is_connect (ts ++ ts')) =
  (List.length (filter is_connect ts) + List.length (filter is_connect ts'))%nat.
Proof. intros; rewrite filter_app, length_app; reflexivity. Qed.

Lemma remove_timer_connects : forall id ts,
  (List.length (filter is_connect (remove_timer id ts))
   <= List.length (filter is_connect ts))%nat.
Proof.
  induction ts as [|t ts IH]; simpl; [lia|].
  destruct (Nat.eqb (tid t) id); simpl; destruct (is_connect t); simpl; lia.
Qed.

Lemma remove_timeout_connects : forall id ts t,
  find_timer id ts = Some t -> is_connect t = false ->
  List.length (filter is_connect (remove_timer id ts))
  = List.length (filter is_connect ts).
Proof.
  unfold find_timer; induction ts as [|t0 ts IH]; simpl; intros t Hf Hc; [discriminate|].
  destruct (Nat.eqb (tid t0) id).
  - injection Hf as ->; rewrite Hc; reflexivity.
  - simpl; destruct (is_connect t0); simpl; rewrite (IH t Hf Hc); reflexivity.
Qed.

Lemma flush_timers_connects : forall len i id t0 dl,
  filter is_connect (flush_timers len i id t0 dl) = [].
Proof. induction i; simpl; intros; auto. Qed.

Lemma remove_connect_connects : forall id ts t,
  find_timer id ts = Some t -> is_connect t = true ->
  S (List.length (filter is_connect (remove_timer id ts)))
  = List.length (filter is_connect ts).
Proof.
  unfold find_timer; induction ts as [|t0 ts IH]; simpl; intros t Hf Hc; [discriminate|].
  destruct (Nat.eqb (tid t0) id).
  - injection Hf as ->; rewrite Hc; reflexivity.
  - simpl; destruct (is_connect t0); simpl; rewrite <- (IH t Hf Hc); reflexivity.
Qed.

Lemma trigger_effects_transports : forall s dA name e,
  filter is_new_transport (trigger_effects s dA name e) = [].
Proof.
  intros; unfold trigger_effects.
  destruct (debug s || dA), (handlers s name); reflexivity.
Qed.

Lemma attempts_app : forall l l',
  List.length (filter is_new_transport (l ++ l')) =
  (List.length (filter is_new_transport l)
   + List.length (filter is_new_transport l'))%nat.
Proof. intros; rewrite filter_app, length_app; reflexivity. Qed.

Lemma remove_fired_connects : forall id ts t,
  find_timer id ts = Some t ->
  List.length (filter is_connect ts)
  = ((match cb t with CbConnect => 1 | _ => 0 end)
     + List.length (filter is_connect (remove_timer id ts)))%nat.
Proof.
  intros id ts t Hf; destruct (is_connect t) eqn:Hc.
  - rewrite <- (remove_connect_connects id ts t Hf Hc).
    unfold is_connect in Hc; destruct (cb t); try discriminate; reflexivity.
  - rewrite (remove_timeout_connects id ts t Hf Hc).
    unfold is_connect in Hc; destruct (cb t); try discriminate; reflexivity.
Qed.

(** Every step accounts for connect attempts: an attempt made consumes a
    pending connect timer, and only entering the reconnect wait arms one. *)
Lemma connects_step : forall w e,
  (connect_attempts (step w e) + pending_connects (step w e)
   <= connect_attempts w + pending_connects w
      + (if enters_reconnect_wait w e then 1 else 0))%nat
  /\ (pending_connects (step w e)
      <= pending_connects w + (if enters_reconnect_wait w e then 1 else 0))%nat
  /\ (connect_attempts w <= connect_attempts (step w e))%nat.
Proof.
  intros w e; by_cases w e;
    rewrite ?pending_connects_app, ?attempts_app, ?trigger_effects_transports,
            ?flush_timers_connects, ?attempts_app, ?trigger_effects_transports;
    cbn [filter is_connect is_new_transport cb List.length Nat.add];
    try match goal with
      | |- context [remove_timer ?c ?ts] => pose proof (remove_timer_connects c ts)
      end;
    try match goal with
      | Hf : find_timer ?i ?ts = Some ?t, Hcb : cb ?t = _ |- _ =>
          pose proof (remove_fired_connects i ts t Hf) as Hrm;
          rewrite Hcb in Hrm
      end;
    lia.
Qed.

Lemma readyState_open_step : forall w e,
  if reaches_open w e
  then readyState (sock (step w e)) = Some OPEN
  else readyState (sock (step w e)) = Some OPEN -> readyState (sock w) = Some OPEN.
Proof. intros w e; by_cases w e; auto; discriminate. Qed.

Lemma reconnect_wait_arms : forall w e,
  enters_reconnect_wait w e = true ->
  timers (step w e) =
  timers (clearTimeout (connectTimer (sock w)) w)
  ++ [mkTimer (nextTimer w) (now w + Z.max 0 (reconnect_interval (sock w))) CbConnect].
Proof.
  intros w e H; destruct e; try discriminate.
  break_world w.
  destruct wF, hU; try discriminate; destruct ct, hO; methods; reflexivity.
Qed.

(** C5: [attempts >= 1] in every reachable state; a step adds exactly 1 to
    [attempts] when it enters the reconnect wait (it arms the next connect),
    sets it to 1 when it reaches OPEN, and leaves it alone otherwise; steps
    that do not enter the reconnect wait arm no connect, and steps that do
    not reach OPEN do not turn [readyState] into OPEN. *)
Theorem attempts_discipline :
  (forall w, reachable w -> 1 <= attempts (sock w))
  /\ (forall w e,
        attempts (sock (step w e)) =
        if enters_reconnect_wait w e then attempts (sock w) + 1
        else if reaches_open w e then 1
        else attempts (sock w))
  /\ (forall w e,
        if enters_reconnect_wait w e
        then timers (step w e) =
             timers (clearTimeout (connectTimer (sock w)) w)
             ++ [mkTimer (nextTimer w)
                         (now w + Z.max 0 (reconnect_interval (sock w))) CbConnect]
        else (pending_connects (step w e) <= pending_connects w)%nat)
  /\ (forall w e,
        if reaches_open w e
        then readyState (sock (step w e)) = Some OPEN
        else readyState (sock (step w e)) = Some OPEN ->
             readyState (sock w) = Some OPEN).
Proof.
  split; [exact attempts_positive|].
  split; [exact attempts_step|].
  split; [|exact readyState_open_step].
  intros w e; destruct (enters_reconnect_wait w e) eqn:He.
  - apply reconnect_wait_arms; exact He.
  - pose proof (connects_step w e) as [_ [H _]]; rewrite He in H; lia.
Qed.

Lemma attempts_discipline_witness :
  let w := run (new_RcSocket "ws://host" [])
               [TimerFires 0%nat; TransportClose "refused"; TimePasses 1000;
                TimerFires 2%nat; TransportClose "refused"] in
  1 <= attempts (sock w) /\ attempts (sock w) = 3.
Proof.
  intros w; split; [|reflexivity].
  apply (proj1 attempts_discipline).
  repeat (apply reachable_step; [|reflexivity]); apply reachable_new.
Defined.

(** * The pending queue *)

(** C6: [send] with a transport and a ready state other than CONNECTING
    hands the payload to the transport at once and leaves the queue alone;
    in every other case it only enqueues the payload as the newest entry
    (the array is newest first, so oldest-first order is [rev (queue s)]). *)
Theorem send_forwards_or_enqueues :
  forall (w : World) (d : jsval),
    (forall x r,
        ws (sock w) = Some x -> readyState (sock w) = Some r -> r <> CONNECTING ->
        log (step w (OwnerSend d)) = log w ++ [WsSend x d]
        /\ sock (step w (OwnerSend d)) = sock w
        /\ timers (step w (OwnerSend d)) = timers w)
    /\ (ws (sock w) = None \/ readyState (sock w) = Some CONNECTING
        \/ readyState (sock w) = None ->
        step w (OwnerSend d) = upd (set_queue (d :: queue (sock w))) w
        /\ rev (queue (sock (step w (OwnerSend d)))) = rev (queue (sock w)) ++ [d]
        /\ log (step w (OwnerSend d)) = log w).
Proof.
  intros w d; split.
  - intros x0 r Hws Hr Hne; break_world w; subst.
    assert (Ht : truthy (Some r) = true).
    { simpl; destruct (Z.eqb_spec r 0) as [->|_]; [exfalso; apply Hne|]; reflexivity. }
    unfold step, send; cbn [ws sock readyState]; rewrite Ht; auto.
  - intros H; break_world w.
    destruct H as [->|[->| ->]]; [|destruct x..]; methods; auto.
Qed.

Lemma send_forwards_or_enqueues_witness :
  let connecting := run (new_RcSocket "ws://host" []) [TimerFires 0%nat] in
  let opened := step connecting (TransportOpen "open") in
  log (step opened (OwnerSend (JData "a"))) = log opened ++ [WsSend 0%nat (JData "a")]
  /\ rev (queue (sock (step (step connecting (OwnerSend (JData "a")))
                            (OwnerSend (JData "b")))))
     = [JData "a"; JData "b"].
Proof.
  intros connecting opened; split.
  - apply (proj1 (send_forwards_or_enqueues opened (JData "a")) 0%nat OPEN);
      [reflexivity|reflexivity|discriminate].
  - apply (proj2 (send_forwards_or_enqueues
                    (step connecting (OwnerSend (JData "a"))) (JData "b"))).
    right; left; reflexivity.
Defined.

(** * Closing *)


(** C9: an open signal that finds [wasForced] set closes the transport it
    came from and reports nothing: no open notification, [hasOpened],
    [attempts], [readyState] and the queue as they were, no queue flush
    armed; the transport's close signal then takes the forced path: CLOSED,
    the close notification with [forced], no reconnect. *)
Theorem open_after_forced_close :
  forall (w : World) (raw : string) (x : nat),
    wasForced (sock w) = true -> ws (sock w) = Some x ->
    let w' := step w (TransportOpen raw) in
    log w' = log w ++ [WsClose x]
    /\ hasOpened (sock w') = hasOpened (sock w)
    /\ attempts (sock w') = attempts (sock w)
    /\ readyState (sock w') = readyState (sock w)
    /\ queue (sock w') = queue (sock w)
    /\ wasForced (sock w') = true
    /\ timers w' = timers (clearTimeout (connectTimer (sock w)) w)
    /\ forall raw',
         let w'' := step w' (TransportClose raw') in
         readyState (sock w'') = Some CLOSED
         /\ log w'' = log w' ++ trigger_effects (sock w) (debugAll w) onclose
                                  (EvClose raw' true (isRetrying (sock w))
                                           (isRefreshing (sock w)))
         /\ timers w'' = timers (clearTimeout (connectTimer (sock w')) w')
         /\ attempts (sock w'') = attempts (sock w).
Proof.
  intros w raw x0 Hf Hws; break_world w; subst.
  destruct ct as [c|]; methods; repeat (split; [reflexivity|]);
    intros raw'; methods; auto.
Qed.

Lemma open_after_forced_close_witness :
  let w := run (new_RcSocket "ws://host" [])
               [OwnerAssignHandler onopen true; OwnerAssignHandler onclose true;
                TimerFires 0%nat; OwnerClose] in
  let w' := step w (TransportOpen "open") in
  log w' = log w ++ [WsClose 0%nat]
  /\ hasOpened (sock w') = false
  /\ log (step w' (TransportClose "bye"))
     = log w' ++ [Handler onclose (EvClose "bye" true false false)].
Proof.
  intros w w'.
  pose proof (open_after_forced_close w "open" 0%nat eq_refl eq_refl) as H.
  cbv zeta in H; fold w' in H.
  destruct H as (Hlog & Hopened & _ & _ & _ & _ & _ & Hclose).
  split; [exact Hlog|split; [exact Hopened|]].
  destruct (Hclose "bye"%string) as (_ & Hlog' & _); exact Hlog'.
Defined.

Lemma hasUnloaded_step : forall w e,
  hasUnloaded (sock w) = true -> hasUnloaded (sock (step w e)) = true.
Proof. intros w e H; by_cases w e; auto; discriminate. Qed.

Lemma hasUnloaded_run : forall evs w,
  hasUnloaded (sock w) = true -> hasUnloaded (sock (run w evs)) = true.
Proof.
  induction evs as [|e evs IH]; intros w H; simpl; [exact H|].
  apply IH, hasUnloaded_step, H.
Qed.

Lemma wasForced_step : forall w e,
  wasForced (sock w) = true -> wasForced (sock (step w e)) = true.
Proof. intros w e H; by_cases w e; auto; discriminate. Qed.


Lemma no_reconnect_when_abandoned : forall w e,
  wasForced (sock w) = true \/ hasUnloaded (sock w) = true ->
  enters_reconnect_wait w e = false.
Proof.
  intros w e [H|H]; destruct e; simpl; auto; rewrite H; simpl; auto.
  apply andb_false_r.
Qed.

(** Once [wasForced] or [hasUnloaded] is set no connect is armed any more:
    the attempts made from then on are paid for by the connect timers that
    were already pending. *)
Lemma abandoned_run : forall evs w,
  wasForced (sock w) = true \/ hasUnloaded (sock w) = true ->
  (connect_attempts (run w evs) + pending_connects (run w evs)
   <= connect_attempts w + pending_connects w)%nat
  /\ (pending_connects (run w evs) <= pending_connects w)%nat.
Proof.
  induction evs as [|e evs IH]; intros w H; simpl; [lia|].
  assert (H' : wasForced (sock (step w e)) = true
               \/ hasUnloaded (sock (step w e)) = true).
  { destruct H as [H|H]; [left; apply wasForced_step|right; apply hasUnloaded_step];
      exact H. }
  destruct (IH (step w e) H') as [IH1 IH2].
  pose proof (connects_step w e) as [S1 [S2 _]].
  rewrite (no_reconnect_when_abandoned w e H) in S1, S2.
  lia.
Qed.

(** * Teardown *)

(** C3: once the unload notice has set [hasUnloaded], a transport close
    signal that finds [wasForced] clear calls no handler and logs nothing,
    arms no timer, leaves [readyState] and [attempts] alone, carries
    [forced = false], and no connect is armed at any later time either. *)
Theorem suppressed_close_is_silent :
  forall (w : World) (evs : list event) (raw : string),
    let w1 := run (step w BeforeUnload) evs in
    wasForced (sock w1) = false ->
    let w2 := step w1 (TransportClose raw) in
    hasUnloaded (sock w1) = true
    /\ log w2 = log w1
    /\ timers w2 = timers (clearTimeout (connectTimer (sock w1)) w1)
    /\ nextTimer w2 = nextTimer w1
    /\ close_event (sock w1) raw
       = EvClose raw false (isRetrying (sock w1)) (isRefreshing (sock w1))
    /\ wasForced (sock w2) = false
    /\ readyState (sock w2) = readyState (sock w1)
    /\ attempts (sock w2) = attempts (sock w1)
    /\ forall evs',
         (pending_connects (run w2 evs') <= pending_connects w1)%nat
         /\ (connect_attempts (run w2 evs') + pending_connects (run w2 evs')
             <= connect_attempts w1 + pending_connects w1)%nat.
Proof.
  intros w evs raw w1 Hf w2.
  assert (Hu : hasUnloaded (sock w1) = true).
  { apply hasUnloaded_run; reflexivity. }
  assert (Hstep : log w2 = log w1
                  /\ timers w2 = timers (clearTimeout (connectTimer (sock w1)) w1)
                  /\ nextTimer w2 = nextTimer w1
                  /\ wasForced (sock w2) = false
                  /\ readyState (sock w2) = readyState (sock w1)
                  /\ attempts (sock w2) = attempts (sock w1)).
  { subst w2; generalize dependent w1; intros w1 Hf Hu.
    break_world w1; subst; destruct ct; methods; auto 10. }
  destruct Hstep as (H1 & H2 & H3 & H4 & H5 & H6).
  repeat (split; [assumption|]).
  split; [unfold close_event; rewrite Hf; reflexivity|].
  repeat (split; [assumption|]).
  intros evs'.
  assert (Hu2 : hasUnloaded (sock w2) = true) by (apply hasUnloaded_step; exact Hu).
  destruct (abandoned_run evs' w2 (or_intror Hu2)) as [A1 A2].
  pose proof (connects_step w1 (TransportClose raw)) as [S1 [S2 _]].
  rewrite (no_reconnect_when_abandoned w1 _ (or_intror Hu)) in S1, S2.
  fold w2 in S1, S2. lia.
Qed.

Lemma suppressed_close_is_silent_witness :
  let w := run (new_RcSocket "ws://host" [])
               [OwnerAssignHandler onclose true; TimerFires 0%nat;
                TransportOpen "open"] in
  let w1 := run (step w BeforeUnload) [OwnerSend (JData "a")] in
  let w2 := step w1 (TransportClose "navigated away") in
  log w2 = log w1 /\ timers w2 = [] /\ readyState (sock w2) = Some OPEN.
Proof.
  intros w w1 w2.
  pose proof (suppressed_close_is_silent w [OwnerSend (JData "a")]
                "navigated away" eq_refl) as H.
  cbv zeta in H; fold w1 in H; fold w2 in H.
  destruct H as (_ & Hlog & Htimers & _ & _ & _ & Hrs & _).
  split; [exact Hlog|split; [exact Htimers|exact Hrs]].
Defined.

(** * The timer queue in reachable states *)

Lemma In_remove_timer : forall id ts t, In t (remove_timer id ts) -> In t ts.
Proof.
  induction ts as [|t0 ts IH]; simpl; intros t H; [exact H|].
  destruct (Nat.eqb (tid t0) id); [right; exact H|].
  destruct H as [H|H]; [left; exact H|right; apply IH, H].
Qed.

Lemma NoDup_remove_timer : forall id ts,
  NoDup (map tid ts) -> NoDup (map tid (remove_timer id ts)).
Proof.
  induction ts as [|t0 ts IH]; simpl; intros H; [exact H|].
  inversion H as [|? ? Hn Hd]; subst.
  destruct (Nat.eqb (tid t0) id); [exact Hd|].
  simpl; constructor; [|apply IH, Hd].
  intros Hin; apply Hn.
  apply in_map_iff in Hin as [t [Ht Hin]].
  apply in_map_iff; exists t; split; [exact Ht|eapply In_remove_timer, Hin].
Qed.

Lemma remove_timer_gone : forall id ts t,
  NoDup (map tid ts) -> In t (remove_timer id ts) -> tid t <> id.
Proof.
  induction ts as [|t0 ts IH]; simpl; intros t Hd H; [destruct H|].
  inversion Hd as [|? ? Hn Hd']; subst.
  destruct (Nat.eqb_spec (tid t0) id) as [E|E].
  - intros Ht; apply Hn; rewrite E, <- Ht; apply in_map, H.
  - destruct H as [<-|H]; [exact E|apply IH; assumption].
Qed.

Lemma find_timer_In : forall id ts t,
  find_timer id ts = Some t -> In t ts /\ tid t = id.
Proof.
  unfold find_timer; intros id ts t H; apply find_some in H as [H1 H2].
  split; [exact H1|apply Nat.eqb_eq, H2].
Qed.

Lemma find_timer_remove : forall id ts,
  NoDup (map tid ts) -> find_timer id (remove_timer id ts) = None.
Proof.
  intros id ts Hd; unfold find_timer.
  destruct (find _ (remove_timer id ts)) as [t|] eqn:Hf; [|reflexivity].
  apply (find_timer_In id) in Hf as [Hin Hid].
  exfalso; eapply remove_timer_gone; eauto.
Qed.

Lemma filter_connect_nil : forall ts,
  (forall t, In t ts -> cb t <> CbConnect) -> filter is_connect ts = [].
Proof.
  induction ts as [|t ts IH]; simpl; intros H; [reflexivity|].
  unfold is_connect at 1.
  destruct (cb t) eqn:E; [exfalso; apply (H t); auto|apply IH; auto..].
Qed.

Lemma TOK_remove : forall id ts nt ct x,
  TOK ts nt ct x -> TOK (remove_timer id ts) nt ct x.
Proof.
  intros id ts nt ct x (H1 & H2 & H3 & H4 & H5).
  repeat split.
  - intros t Ht; apply H1; eapply In_remove_timer, Ht.
  - apply NoDup_remove_timer, H2.
  - apply (H3 t); [eapply In_remove_timer; eassumption|assumption].
  - apply (H3 t); [eapply In_remove_timer; eassumption|assumption].
  - intros t Ht; apply H4; eapply In_remove_timer, Ht.
  - pose proof (remove_timer_connects id ts); lia.
Qed.

Lemma TOK_add_queue : forall ts nt ct x d k,
  TOK ts nt ct x -> TOK (ts ++ [mkTimer nt d (CbQueueSend k)]) (S nt) ct x.
Proof.
  intros ts nt ct x d k (H1 & H2 & H3 & H4 & H5).
  repeat split.
  - intros t Ht; apply in_app_iff in Ht as [Ht|[<-|[]]]; simpl; [|lia].
    specialize (H1 t Ht); lia.
  - rewrite map_app; simpl. apply NoDup_app; [exact H2|repeat constructor; auto|].
    intros a Ha [<-|[]].
    apply in_map_iff in Ha as [t [Et Ht]]; specialize (H1 t Ht); lia.
  - apply in_app_iff in H as [Ht|[<-|[]]]; [|discriminate]. apply (H3 t Ht H0).
  - apply in_app_iff in H as [Ht|[<-|[]]]; [|discriminate]. apply (H3 t Ht H0).
  - intros t Ht Hc; apply in_app_iff in Ht as [Ht|[<-|[]]]; [|discriminate].
    apply (H4 t Ht Hc).
  - rewrite pending_connects_app; simpl; lia.
Qed.

Lemma TOK_add_flush : forall len i ts nt ct x t0 dl,
  TOK ts nt ct x -> TOK (ts ++ flush_timers len i nt t0 dl) (nt + i) ct x.
Proof.
  induction i as [|i IH]; intros ts nt ct x t0 dl H; simpl.
  - rewrite app_nil_r, Nat.add_0_r; exact H.
  - change (?a :: ?l) with ([a] ++ l); rewrite app_assoc, Nat.add_succ_r.
    apply (IH _ (S nt)), TOK_add_queue, H.
Qed.

Lemma TOK_no_timeout : forall ts nt ct t,
  TOK ts nt ct None -> In t ts -> cb t <> CbConnectTimeout.
Proof.
  intros ts nt ct t (_ & _ & H3 & _) Ht Hc.
  destruct (H3 t Ht Hc) as [_ Hx]; apply Hx; reflexivity.
Qed.

Lemma TOK_cleared : forall ts nt ct x,
  TOK ts nt ct x ->
  TOK (match ct with Some c => remove_timer c ts | None => ts end) nt ct None.
Proof.
  intros ts nt ct x H.
  assert (H' : TOK (match ct with Some c => remove_timer c ts | None => ts end) nt ct x).
  { destruct ct; [apply TOK_remove|]; exact H. }
  destruct H as (_ & Hd & _), H' as (H1 & H2 & H3 & H4 & H5).
  split; [exact H1|split; [exact H2|split; [|split; [reflexivity|exact H5]]]].
  intros t Ht Hcb; exfalso.
  destruct (H3 t Ht Hcb) as [Hct _]; subst ct.
  eapply remove_timer_gone; [exact Hd|exact Ht|reflexivity].
Qed.

Lemma TOK_add_connect : forall ts nt ct d,
  TOK ts nt ct None -> filter is_connect ts = [] ->
  TOK (ts ++ [mkTimer nt d CbConnect]) (S nt) ct None.
Proof.
  intros ts nt ct d H Hc.
  pose proof (fun t => TOK_no_timeout ts nt ct t H) as Hnt.
  destruct H as (H1 & H2 & H3 & H4 & H5).
  split; [|split; [|split; [|split; [reflexivity|]]]].
  - intros t Ht; apply in_app_iff in Ht as [Ht|[<-|[]]]; simpl; [|lia].
    specialize (H1 t Ht); lia.
  - rewrite map_app; simpl. apply NoDup_app; [exact H2|repeat constructor; auto|].
    intros a Ha [<-|[]].
    apply in_map_iff in Ha as [t [Et Ht]]; specialize (H1 t Ht); lia.
  - intros t Ht Hcb; apply in_app_iff in Ht as [Ht|[<-|[]]]; [|discriminate].
    exfalso; apply (Hnt t Ht Hcb).
  - rewrite pending_connects_app, Hc; simpl; lia.
Qed.

Lemma TOK_add_timeout : forall ts nt ct d x,
  TOK ts nt ct None -> filter is_connect ts = [] ->
  TOK (ts ++ [mkTimer nt d CbConnectTimeout]) (S nt) (Some nt) (Some x).
Proof.
  intros ts nt ct d x H Hc.
  pose proof (fun t => TOK_no_timeout ts nt ct t H) as Hnt.
  destruct H as (H1 & H2 & H3 & H4 & H5).
  split; [|split; [|split; [|split]]].
  - intros t Ht; apply in_app_iff in Ht as [Ht|[<-|[]]]; simpl; [|lia].
    specialize (H1 t Ht); lia.
  - rewrite map_app; simpl. apply NoDup_app; [exact H2|repeat constructor; auto|].
    intros a Ha [<-|[]].
    apply in_map_iff in Ha as [t [Et Ht]]; specialize (H1 t Ht); lia.
  - intros t Ht Hcb; apply in_app_iff in Ht as [Ht|[<-|[]]].
    + exfalso; apply (Hnt t Ht Hcb).
    + split; [reflexivity|discriminate].
  - intros t Ht Hcb; apply in_app_iff in Ht as [Ht|[<-|[]]]; [|discriminate].
    exfalso.
    assert (Hin : In t (filter is_connect ts)).
    { apply filter_In; split; [exact Ht|unfold is_connect; rewrite Hcb; reflexivity]. }
    rewrite Hc in Hin; destruct Hin.
  - rewrite pending_connects_app, Hc; simpl; lia.
Qed.

Lemma timers_ok_new : forall u ps, timers_ok (new_RcSocket u ps).
Proof.
  intros u ps; unfold timers_ok, TOK; simpl.
  split; [|split; [|split; [|split]]].
  - intros t [<-|[]]; simpl; lia.
  - repeat constructor; auto.
  - intros t [<-|[]]; discriminate.
  - reflexivity.
  - lia.
Qed.

Lemma timers_ok_step : forall w e,
  timers_ok w -> enabled w e = true -> timers_ok (step w e).
Proof.
  unfold timers_ok; intros w e H He; cases_event e; break_world w;
    try exact H.
  - destruct x; methods; split_ifs; unfold_methods; exact H.
  - destruct x; methods; exact H.
  - destruct x; methods; exact H.
  - destruct x; methods; exact H.
  - (* open *)
    destruct x as [x|]; [clear He|discriminate].
    assert (Hc : TOK (match ct with Some c => remove_timer c ts | None => ts end)
                     nt ct (Some x)).
    { destruct ct; [apply TOK_remove|]; exact H. }
    destruct wF, ct; methods; try exact Hc; apply TOK_add_flush; exact Hc.
  - (* close *)
    destruct x as [x|]; [clear He|discriminate].
    pose proof (TOK_cleared _ _ _ _ H) as Hc.
    assert (Hnone : filter is_connect
              (match ct with Some c => remove_timer c ts | None => ts end) = []).
    { apply filter_connect_nil; intros t Ht Hcb.
      assert (Hin : In t ts).
      { destruct ct; [eapply In_remove_timer|]; exact Ht. }
      destruct H as (_ & _ & _ & H4 & _). discriminate (H4 t Hin Hcb). }
    destruct wF, hU, hO, ct; methods; try exact Hc;
      apply TOK_add_connect; assumption.
  - methods; exact H.
  - methods; exact H.
  - (* timer *)
    unfold step; cbn [timers now].
    destruct (find_timer i ts) as [t|] eqn:Hf; [|exact H].
    destruct (due t <=? n); [|exact H].
    pose proof (TOK_remove i _ _ _ _ H) as Hrm.
    destruct (find_timer_In _ _ _ Hf) as [Hin Hid].
    destruct (cb t) eqn:Hcb.
    + assert (Hws : x = None).
      { destruct H as (_ & _ & _ & H4 & _); apply (H4 t Hin Hcb). }
      assert (Hnone : filter is_connect (remove_timer i ts) = []).
      { pose proof (remove_fired_connects i ts t Hf) as Hc.
        rewrite Hcb in Hc.
        destruct H as (_ & _ & _ & _ & H5).
        destruct (filter is_connect (remove_timer i ts)); [reflexivity|].
        simpl in Hc; lia. }
      subst x; methods.
      eapply TOK_add_timeout; eassumption.
    + destruct x; methods; exact Hrm.
    + destruct x; methods; split_ifs; unfold_methods; exact Hrm.
  - unfold step; destruct (0 <=? ms); exact H.
Qed.

Lemma reachable_timers_ok : forall w, reachable w -> timers_ok w.
Proof.
  induction 1 as [u ps|w e Hr IH He];
    [apply timers_ok_new|apply timers_ok_step; assumption].
Qed.



(** ** Looking timers up *)

Lemma find_timer_app : forall id ts ts',
  find_timer id (ts ++ ts') =
  match find_timer id ts with
  | Some t => Some t
  | None => find_timer id ts'
  end.
Proof.
  unfold find_timer; induction ts as [|t ts IH]; simpl; intros ts'; [reflexivity|].
  destruct (Nat.eqb (tid t) id); [reflexivity|apply IH].
Qed.




Lemma find_timer_fresh : forall ts nt,
  (forall t, In t ts -> (tid t < nt)%nat) -> find_timer nt ts = None.
Proof.
  intros ts nt H; destruct (find_timer nt ts) as [t|] eqn:Hf; [|reflexivity].
  apply find_timer_In in Hf as [Hin Hid]; specialize (H t Hin); lia.
Qed.







(** * The connect timeout *)

Lemma connect_fires : forall w id tm,
  find_timer id (timers w) = Some tm -> cb tm = CbConnect -> due tm <= now w ->
  step w (TimerFires id) = _connect (set_timers (remove_timer id (timers w)) w).
Proof.
  intros w id tm Hf Hcb Hdue; simpl; rewrite Hf.
  destruct (Z.leb_spec (due tm) (now w)); [|lia].
  rewrite Hcb; reflexivity.
Qed.

Lemma connect_eq : forall w,
  _connect w =
  mkWorld (set_readyState (Some CONNECTING)
             (set_connectTimer (Some (nextTimer w)) (set_ws (Some (nextWs w)) (sock w))))
          (debugAll w)
          (timers w ++ [mkTimer (nextTimer w) (now w + Z.max 0 (timeout (sock w)))
                                CbConnectTimeout])
          (S (nextTimer w)) (S (nextWs w)) (now w)
          (log w ++ [NewWebSocket (nextWs w) (url (sock w)) (protocols (sock w))]
                 ++ trigger_effects (sock w) (debugAll w) onconnecting EvUndefined).
Proof.
  intros w; break_world w; methods; rewrite <- app_assoc; reflexivity.
Qed.


Lemma timeout_fires : forall w id tm x,
  find_timer id (timers w) = Some tm -> cb tm = CbConnectTimeout ->
  due tm <= now w -> ws (sock w) = Some x ->
  step w (TimerFires id) =
  mkWorld (set_isRetrying true (sock w)) (debugAll w)
          (remove_timer id (timers w)) (nextTimer w) (nextWs w) (now w)
          (log w ++ trigger_effects (sock w) (debugAll w) ontimeout EvUndefined
                 ++ [WsClose x]).
Proof.
  intros w id tm x0 Hf Hcb Hdue Hws; unfold step; rewrite Hf.
  destruct (Z.leb_spec (due tm) (now w)); [|lia].
  rewrite Hcb; break_world w; subst; methods.
  rewrite <- app_assoc; reflexivity.
Qed.


Lemma time_passes : forall w ms,
  0 <= ms -> step w (TimePasses ms) = set_now (now w + ms) w.
Proof.
  intros w ms H; unfold step; destruct (Z.leb_spec 0 ms); [reflexivity|lia].
Qed.








(** * Retry and refresh *)

Lemma unexpected_close_eq : forall w raw,
  wasForced (sock w) = false -> hasUnloaded (sock w) = false ->
  step w (TransportClose raw) =
  mkWorld (set_attempts (attempts (sock w) + 1)
             (set_hasOpened false
                (set_isRefreshing false
                   (set_isRetrying false (set_ws None (sock w))))))
          (debugAll w)
          (timers (clearTimeout (connectTimer (sock w)) w)
           ++ [mkTimer (nextTimer w)
                       (now w + Z.max 0 (reconnect_interval (sock w))) CbConnect])
          (S (nextTimer w)) (nextWs w) (now w)
          (log w ++ (if hasOpened (sock w)
                     then trigger_effects (sock w) (debugAll w) onclose
                                          (close_event (sock w) raw)
                     else [])).
Proof.
  intros w raw Hf Hu; break_world w; subst.
  destruct ct, hO; methods; rewrite ?app_nil_r; reflexivity.
Qed.





(** * Owner-initiated close *)



Lemma transport_excludes_connect : forall w,
  timers_ok w -> ws (sock w) <> None -> pending_connects w = 0%nat.
Proof.
  intros w (_ & _ & _ & H4 & _) Hws; unfold pending_connects.
  rewrite filter_connect_nil; [reflexivity|].
  intros t Ht Hcb; apply Hws, (H4 t Ht Hcb).
Qed.




(** * Retry and refresh without a transport *)









(** * Flushing the queue *)

Lemma find_timer_behind : forall id pre t rest,
  (forall t', In t' pre -> (tid t' < id)%nat) -> tid t = id ->
  find_timer id (pre ++ t :: rest) = Some t.
Proof.
  intros id pre t rest Hpre Hid.
  rewrite find_timer_app, (find_timer_fresh pre id Hpre).
  unfold find_timer; cbn [find]; rewrite Hid, Nat.eqb_refl; reflexivity.
Qed.

Lemma remove_timer_behind : forall id pre t rest,
  (forall t', In t' pre -> (tid t' < id)%nat) -> tid t = id ->
  remove_timer id (pre ++ t :: rest) = pre ++ rest.
Proof.
  induction pre as [|p pre IH]; intros t rest Hpre Hid; simpl.
  - rewrite Hid, Nat.eqb_refl; reflexivity.
  - destruct (Nat.eqb_spec (tid p) id) as [E|_].
    + specialize (Hpre p (or_introl eq_refl)); lia.
    + f_equal; apply IH; [intros t' Ht'; apply Hpre; right; exact Ht'|exact Hid].
Qed.

Lemma rev_oldest_first : forall (q : list jsval) m,
  List.length q = S m -> rev q = nth m q JUndefined :: rev (removelast q).
Proof.
  intros q m Hlen.
  destruct (exists_last (l := q)) as (q' & a & ->); [intros ->; discriminate|].
  rewrite length_app in Hlen; simpl in Hlen.
  assert (Hm : m = List.length q') by lia; subst m.
  rewrite nth_middle, removelast_last, rev_unit; reflexivity.
Qed.

Lemma flush_due : forall dl (len k : nat),
  (k <= len)%nat -> Z.max 0 (dl * Z.of_nat k) <= Z.max 0 (dl * Z.of_nat len).
Proof.
  intros dl len k H.
  destruct (Z.le_gt_cases 0 dl) as [Hd|Hd].
  - assert (dl * Z.of_nat k <= dl * Z.of_nat len)
      by (apply Z.mul_le_mono_nonneg_l; lia).
    lia.
  - assert (dl * Z.of_nat k <= 0) by nia. lia.
Qed.

(** The flush timers fired in the order they were armed, with a transport
    that stays usable and a queue nothing else touches: the entries go out
    oldest first and the queue ends empty. *)
Lemma fire_flush : forall len m q s dA pre id nt nw t0 dl n l x,
  List.length q = m -> (m <= len)%nat ->
  queue s = q -> ws s = Some x -> truthy (readyState s) = true ->
  (forall t', In t' pre -> (tid t' < id)%nat) ->
  t0 + Z.max 0 (dl * Z.of_nat len) <= n ->
  run (mkWorld s dA (pre ++ flush_timers len m id t0 dl) nt nw n l)
      (map TimerFires (seq id m))
  = mkWorld (set_queue [] s) dA pre nt nw n (l ++ map (WsSend x) (rev q)).
Proof.
  intros len m; induction m as [|m IH];
    intros q s dA pre id nt nw t0 dl n l x Hlen Hm Hq Hws Hrs Hpre Hdue.
  - destruct q; [|discriminate]; simpl.
    rewrite !app_nil_r; destruct s; simpl in *; subst; reflexivity.
  - cbn [seq map flush_timers run fold_left].
    set (T := mkTimer id (t0 + Z.max 0 (dl * Z.of_nat (len - m))) (CbQueueSend m)).
    assert (Hstep :
      step (mkWorld s dA (pre ++ T :: flush_timers len m (S id) t0 dl) nt nw n l)
           (TimerFires id)
      = mkWorld (set_queue (removelast q) s) dA
                (pre ++ flush_timers len m (S id) t0 dl) nt nw n
                (l ++ [WsSend x (nth m q JUndefined)])).
    { unfold step; cbn [timers now].
      rewrite (find_timer_behind id pre T _ Hpre eq_refl).
      rewrite (remove_timer_behind id pre T _ Hpre eq_refl).
      assert (Hd : due T <= n).
      { unfold T; cbn [due].
        pose proof (flush_due dl len (len - m)) as Hf.
        assert (len - m <= len)%nat by lia. specialize (Hf H). lia. }
      destruct (Z.leb_spec (due T) n); [|lia].
      unfold T; cbn [cb run_callback].
      unfold send; cbn [sock set_timers ws readyState].
      rewrite Hws, Hrs.
      unfold upd, emit, set_timers;
        cbn [sock debugAll timers nextTimer nextWs now log].
      rewrite Hq; reflexivity. }
    fold (run (step (mkWorld s dA (pre ++ T :: flush_timers len m (S id) t0 dl)
                             nt nw n l) (TimerFires id))
              (map TimerFires (seq (S id) m))).
    rewrite Hstep.
    rewrite (IH (removelast q) (set_queue (removelast q) s) dA pre (S id) nt nw
                t0 dl n _ x).
    + rewrite (rev_oldest_first q m Hlen), <- app_assoc; reflexivity.
    + pose proof (app_removelast_last (l := q) JUndefined) as Hl.
      assert (q <> []) by (intros ->; discriminate).
      specialize (Hl H).
      assert (Hll : List.length q = S (List.length (removelast q))).
      { rewrite Hl at 1; rewrite length_app; simpl; lia. }
      lia.
    + lia.
    + reflexivity.
    + exact Hws.
    + exact Hrs.
    + intros t' Ht'; specialize (Hpre t' Ht'); lia.
    + exact Hdue.
Qed.

Lemma open_eq : forall w raw,
  wasForced (sock w) = false ->
  step w (TransportOpen raw) =
  mkWorld (set_readyState (Some OPEN)
             (set_attempts 1 (set_hasOpened true (sock w))))
          (debugAll w)
          (timers (clearTimeout (connectTimer (sock w)) w)
           ++ flush_timers (List.length (queue (sock w)))
                           (List.length (queue (sock w)))
                           (nextTimer w) (now w) (delay (sock w)))
          (nextTimer w + List.length (queue (sock w))) (nextWs w) (now w)
          (log w ++ trigger_effects (sock w) (debugAll w) onopen (EvRaw raw)).
Proof.
  intros w raw Hf; break_world w; subst.
  destruct ct; methods; reflexivity.
Qed.

(** The [k]-th timer a flush arms (counting from 0) is due [delay * (k + 1)]
    ms after the open signal and reads index [len - 1 - k]: the oldest entry
    has rank 1. *)
Lemma flush_timers_rank : forall len m id t0 dl k,
  (m <= len)%nat -> (k < m)%nat ->
  nth_error (flush_timers len m id t0 dl) k
  = Some (mkTimer (id + k) (t0 + Z.max 0 (dl * Z.of_nat (len - m + k + 1)))
                  (CbQueueSend (m - 1 - k))).
Proof.
  intros len m; induction m as [|m IH]; intros id t0 dl k Hm Hk; [lia|].
  destruct k as [|k]; cbn [flush_timers nth_error].
  - replace (id + 0)%nat with id by lia.
    replace (len - S m + 0 + 1)%nat with (len - m)%nat by lia.
    replace (S m - 1 - 0)%nat with m by lia. reflexivity.
  - rewrite IH by lia.
    replace (S id + k)%nat with (id + S k)%nat by lia.
    replace (len - m + k + 1)%nat with (len - S m + S k + 1)%nat by lia.
    replace (m - 1 - k)%nat with (S m - 1 - S k)%nat by lia. reflexivity.
Qed.

(** When the transport stays usable and nothing else touches the queue, a
    flush delivers every queued entry once, oldest first, and empties the
    queue. *)
Lemma flush_delivers_in_order : forall w raw x extra,
  timers_ok w -> ws (sock w) = Some x -> wasForced (sock w) = false ->
  0 <= extra ->
  let q := queue (sock w) in
  let m := List.length q in
  let w1 := step w (TransportOpen raw) in
  let w2 := run w1 (TimePasses (Z.max 0 (delay (sock w) * Z.of_nat m) + extra)
                    :: map TimerFires (seq (nextTimer w) m)) in
  log w2 = log w1 ++ map (WsSend x) (rev q)
  /\ queue (sock w2) = []
  /\ timers w2 = timers (clearTimeout (connectTimer (sock w)) w).
Proof.
  intros w raw x0 extra Hok Hws Hf Hextra q m w1 w2.
  assert (Hpre : forall t', In t' (timers (clearTimeout (connectTimer (sock w)) w)) ->
                            (tid t' < nextTimer w)%nat).
  { destruct Hok as (Hfresh & _); intros t' Ht'; apply Hfresh.
    unfold clearTimeout in Ht'; destruct (connectTimer (sock w));
      [eapply In_remove_timer|]; exact Ht'. }
  assert (E : w2 = run (step w1 (TimePasses (Z.max 0 (delay (sock w) * Z.of_nat m)
                                             + extra)))
                       (map TimerFires (seq (nextTimer w) m))) by reflexivity.
  rewrite time_passes in E by lia.
  unfold w1 in E at 2; rewrite (open_eq w raw Hf) in E.
  unfold set_now in E; cbn [sock debugAll timers nextTimer nextWs now log] in E.
  fold q m in E.
  rewrite (fire_flush m m q _ _ _ _ _ _ _ _ _ _ x0) in E;
    try reflexivity; try lia; try assumption.
  - rewrite E; cbn [log sock queue set_queue timers].
    unfold w1; rewrite (open_eq w raw Hf); cbn [log]. auto.
  - unfold w1; rewrite (open_eq w raw Hf); cbn [now]. lia.
Qed.

(** A flush timer that fires when there is no transport delivers nothing: it
    puts the entry it reads at its index back in front of the queue and pops
    the oldest entry. *)
Lemma flush_timer_without_transport : forall w id t i,
  find_timer id (timers w) = Some t -> cb t = CbQueueSend i -> due t <= now w ->
  ws (sock w) = None ->
  queue (sock (step w (TimerFires id)))
  = removelast (nth i (queue (sock w)) JUndefined :: queue (sock w))
  /\ log (step w (TimerFires id)) = log w.
Proof.
  intros w id t i Hf Hcb Hdue Hws; unfold step; rewrite Hf.
  destruct (Z.leb_spec (due t) (now w)); [|lia].
  rewrite Hcb; break_world w; subst; methods; auto.
Qed.

(** C1, at the failing input: [a] then [b] are queued while connecting and
    the open signal arms their flush (index 1 at 100 ms, index 0 at 200 ms).
    [a] goes out; the transport drops; the owner sends [c], which is put in
    front of [b]; the second flush timer reads index 0, finds [c], puts it in
    the queue again (no transport) and pops [b].  [b] is never delivered and
    [c] is delivered twice after the reconnect. *)
Theorem flush_misdelivers_when_queue_changes :
  let a := JData "a" in
  let b := JData "b" in
  let c := JData "c" in
  let w := run (new_RcSocket "ws://host" [])
               [TimerFires 0%nat; OwnerSend a; OwnerSend b; TransportOpen "open"] in
  let w' := run w [TimePasses 100; TimerFires 2%nat; TransportClose "dropped";
                   OwnerSend c; TimePasses 100; TimerFires 3%nat] in
  let w'' := run w' [TimePasses 900; TimerFires 4%nat; TransportOpen "open";
                     TimePasses 100; TimerFires 6%nat;
                     TimePasses 100; TimerFires 7%nat] in
  rev (queue (sock w)) = [a; b]
  /\ timers w = [mkTimer 2%nat 100 (CbQueueSend 1); mkTimer 3%nat 200 (CbQueueSend 0)]
  /\ deliveries w' = [a]
  /\ rev (queue (sock w')) = [c; c]
  /\ deliveries w'' = [a; c; c]
  /\ queue (sock w'') = []
  /\ timers w'' = [].
Proof. vm_compute; repeat split; reflexivity. Qed.

(** * Further properties of the code *)

(** ** Backoff *)

(** X1: the reconnect delay never shrinks as [attempts] grows, and it is the
    cap itself for every [attempts >= 1] when the cap is 1000 ms or less, as
    it is with the constructor's [maxRetry = 1000]: in every reachable state
    with such a cap the next reconnect delay is [maxRetry]. *)
Theorem reconnect_interval_monotone_saturating :
  (forall s s',
      maxRetry s = maxRetry s' -> 0 <= attempts s -> attempts s <= attempts s' ->
      reconnect_interval s <= reconnect_interval s')
  /\ (forall s,
        1 <= attempts s -> maxRetry s <= 1000 ->
        reconnect_interval s = maxRetry s)
  /\ (forall w,
        reachable w -> maxRetry (sock w) <= 1000 ->
        reconnect_interval (sock w) = maxRetry (sock w)).
Proof.
  assert (Hsat : forall s, 1 <= attempts s -> maxRetry s <= 1000 ->
                           reconnect_interval s = maxRetry s).
  { intros s Ha Hm; rewrite reconnect_interval_min.
    assert (2 ^ 1 <= 2 ^ attempts s) by (apply Z.pow_le_mono_r; lia).
    change (2 ^ 1) with 2 in H. lia. }
  split; [|split; [exact Hsat|]].
  - intros s s' Hm H0 Hle; rewrite !reconnect_interval_min, Hm.
    assert (2 ^ attempts s <= 2 ^ attempts s') by (apply Z.pow_le_mono_r; lia).
    lia.
  - intros w Hr Hm; apply Hsat; [apply attempts_positive, Hr|exact Hm].
Qed.

Lemma reconnect_interval_monotone_saturating_witness :
  let w := run (new_RcSocket "ws://host" [])
               [TimerFires 0%nat; TransportClose "refused"; TimePasses 1000;
                TimerFires 2%nat; TransportClose "refused"] in
  attempts (sock w) = 3 /\ reconnect_interval (sock w) = 1000.
Proof.
  intros w; split; [reflexivity|].
  apply (proj2 (proj2 reconnect_interval_monotone_saturating) w).
  - repeat (apply reachable_step; [|reflexivity]); apply reachable_new.
  - discriminate.
Defined.

(** ** What touches the queue *)

(** X2: only [send] and a firing flush timer change the queue: [close],
    [retry], [refresh], the transport's signals, connects and timeouts leave
    every queued payload where it is. *)
Theorem queue_changed_only_by_send_and_flush :
  forall (w : World) (e : event),
    queue (sock (step w e)) = queue (sock w)
    \/ (exists d, e = OwnerSend d)
    \/ (exists id t i, e = TimerFires id /\ find_timer id (timers w) = Some t
                       /\ cb t = CbQueueSend i /\ due t <= now w).
Proof.
  intros w e; by_cases w e; auto.
  all: try (right; left; eexists; reflexivity).
  all: right; right; eexists; eexists; eexists; repeat split;
    try eassumption; apply Z.leb_le; assumption.
Qed.

(** ** One transport or one pending connect *)




(** ** What a step may do to the outside *)

Lemma trigger_effects_In : forall s dA name ev eff,
  In eff (trigger_effects s dA name ev) ->
  (eff = LoggerDebug name (url s) ev /\ debug s || dA = true)
  \/ (eff = Handler name ev /\ handlers s name = true).
Proof.
  intros s dA name ev eff Hi; unfold trigger_effects in Hi.
  destruct (debug s || dA), (handlers s name); simpl in Hi;
    repeat (destruct Hi as [<-|Hi]; [auto|]); destruct Hi.
Qed.

Lemma step_effects : forall w e l eff,
  log (step w e) = log w ++ l -> In eff l -> effect_allowed w eff.
Proof.
  intros w e l eff Hl Hin.
  assert (Hnil : forall l1 l0 : list effect, l1 = l1 ++ l0 -> l0 = []).
  { intros l1 l0 E; rewrite <- (app_nil_r l1) in E at 1.
    apply app_inv_head in E; auto. }
  revert Hl; by_cases w e; intros Hl; rewrite <- ?app_assoc in Hl;
    (first [apply Hnil in Hl | apply app_inv_head in Hl]); subst l;
    repeat match goal with
      | H : In _ [] |- _ => destruct H
      | H : In _ (_ ++ _) |- _ => apply in_app_iff in H as [H|H]
      | H : In _ (_ :: _) |- _ => destruct H as [<-|H]
      | H : In _ (trigger_effects _ _ _ _) |- _ =>
          apply trigger_effects_In in H as [[-> H]|[-> H]]
      end;
    cbn in *; auto.
Qed.

(** X4: whatever a step logs, a handler is called only if its slot is
    assigned when the step starts, and a debug line is written only if
    [debug] or [debugAll] is on, with the object's own url. *)
Theorem handlers_called_only_when_assigned :
  forall (w : World) (e : event) (l : list effect),
    log (step w e) = log w ++ l ->
    (forall name ev, In (Handler name ev) l -> handlers (sock w) name = true)
    /\ (forall name u ev, In (LoggerDebug name u ev) l ->
          debug (sock w) || debugAll w = true /\ u = url (sock w)).
Proof.
  intros w e l Hl; split.
  - intros name ev Hin; exact (step_effects w e l _ Hl Hin).
  - intros name u ev Hin; exact (step_effects w e l _ Hl Hin).
Qed.

Lemma handlers_called_only_when_assigned_witness :
  let w := run (new_RcSocket "ws://host" [])
               [OwnerAssignHandler onopen true; TimerFires 0%nat] in
  log (step w (TransportOpen "open")) = log w ++ [Handler onopen (EvRaw "open")]
  /\ handlers (sock w) onopen = true.
Proof.
  intros w.
  assert (Hl : log (step w (TransportOpen "open"))
               = log w ++ [Handler onopen (EvRaw "open")]) by reflexivity.
  split; [exact Hl|].
  apply (proj1 (handlers_called_only_when_assigned w _ _ Hl) onopen (EvRaw "open")).
  left; reflexivity.
Defined.

(** X5: whatever a step logs, a payload is handed only to the transport the
    object holds when the step starts, and only with a ready state other than
    CONNECTING (or undefined); a close is asked only of the transport held;
    a transport is created only with the object's url and protocols. *)
Theorem transport_addressed_only_when_held :
  forall (w : World) (e : event) (l : list effect),
    log (step w e) = log w ++ l ->
    (forall x d, In (WsSend x d) l ->
       ws (sock w) = Some x /\ truthy (readyState (sock w)) = true)
    /\ (forall x, In (WsClose x) l -> ws (sock w) = Some x)
    /\ (forall x u ps, In (NewWebSocket x u ps) l ->
          x = nextWs w /\ u = url (sock w) /\ ps = protocols (sock w)).
Proof.
  intros w e l Hl; split; [|split].
  - intros x d Hin; exact (step_effects w e l _ Hl Hin).
  - intros x Hin; exact (step_effects w e l _ Hl Hin).
  - intros x u ps Hin; exact (step_effects w e l _ Hl Hin).
Qed.

Lemma transport_addressed_only_when_held_witness :
  let w := run (new_RcSocket "ws://host" [])
               [TimerFires 0%nat; TransportOpen "open"] in
  log (step w (OwnerSend (JData "a"))) = log w ++ [WsSend 0%nat (JData "a")]
  /\ ws (sock w) = Some 0%nat /\ truthy (readyState (sock w)) = true.
Proof.
  intros w.
  assert (Hl : log (step w (OwnerSend (JData "a")))
               = log w ++ [WsSend 0%nat (JData "a")]) by reflexivity.
  split; [exact Hl|].
  apply (proj1 (transport_addressed_only_when_held w _ _ Hl) 0%nat (JData "a")).
  left; reflexivity.
Defined.

(** ** The readable state *)

Lemma readyState_step : forall w e,
  ((readyState (sock w) = None <-> connect_attempts w = 0%nat)
   /\ (ws (sock w) <> None -> (1 <= connect_attempts w)%nat)
   /\ readyState_assigned (readyState (sock w))
   /\ (readyState (sock w) = Some CLOSED -> wasForced (sock w) = true)) ->
  enabled w e = true ->
  (readyState (sock (step w e)) = None <-> connect_attempts (step w e) = 0%nat)
  /\ (ws (sock (step w e)) <> None -> (1 <= connect_attempts (step w e))%nat)
  /\ readyState_assigned (readyState (sock (step w e)))
  /\ (readyState (sock (step w e)) = Some CLOSED ->
      wasForced (sock (step w e)) = true).
Proof.
  unfold readyState_assigned; intros w e ([HA1 HA2] & HB & HC & HD) He.
  by_cases w e; cbn [log ws sock] in HA1, HA2, HB;
    rewrite ?attempts_app, ?trigger_effects_transports;
    cbn [filter is_new_transport List.length Nat.add];
    try discriminate He;
    try (destruct x as [x|]; [|discriminate He]);
    try match type of HB with
      | Some _ <> None -> ?P => assert (HB' : P) by (apply HB; discriminate)
      end;
    repeat split; intros; auto; try discriminate; try lia;
    try (apply HA2; lia);
    try match goal with
      | H : _ = None |- _ => specialize (HA1 H); lia
      end;
    try (exfalso; lia);
    try congruence;
    try (specialize (HB ltac:(assumption)); lia).
Qed.

(** X6: in every reachable state [readyState] is undefined exactly until the
    first connect attempt, is one of CONNECTING, OPEN, CLOSED afterwards
    (never CLOSING), is defined whenever a transport is held, and is CLOSED
    only if the owner has called [close()]. *)
Theorem readyState_in_reachable_states :
  forall w : World,
    reachable w ->
    (readyState (sock w) = None <-> connect_attempts w = 0%nat)
    /\ (ws (sock w) <> None -> readyState (sock w) <> None)
    /\ readyState_assigned (readyState (sock w))
    /\ readyState (sock w) <> Some CLOSING
    /\ (readyState (sock w) = Some CLOSED -> wasForced (sock w) = true).
Proof.
  intros w Hr.
  assert (H : (readyState (sock w) = None <-> connect_attempts w = 0%nat)
              /\ (ws (sock w) <> None -> (1 <= connect_attempts w)%nat)
              /\ readyState_assigned (readyState (sock w))
              /\ (readyState (sock w) = Some CLOSED -> wasForced (sock w) = true)).
  { induction Hr as [u ps|w e Hr IH He].
    - unfold readyState_assigned, connect_attempts; simpl.
      repeat split; intros; auto; try discriminate; congruence.
    - apply readyState_step; assumption. }
  destruct H as (HA & HB & HC & HD).
  split; [exact HA|split; [|split; [exact HC|split; [|exact HD]]]].
  - intros Hws Hn; apply HA in Hn; specialize (HB Hws); lia.
  - intros Hc; destruct HC as [H|[H|[H|H]]]; rewrite H in Hc;
      unfold CONNECTING, OPEN, CLOSED, CLOSING in Hc; discriminate.
Qed.

Lemma readyState_in_reachable_states_witness :
  let w := run (new_RcSocket "ws://host" [])
               [OwnerSend (JData "a"); OwnerRetry] in
  readyState (sock w) = None /\ connect_attempts w = 0%nat.
Proof.
  intros w; split; [reflexivity|].
  apply (proj1 (readyState_in_reachable_states w
                  ltac:(repeat (apply reachable_step; [|reflexivity]);
                        apply reachable_new))).
  reflexivity.
Defined.

(** ** A connect attempt that times out *)

Lemma waiting_cleared : forall ts nt ct x,
  TOK ts nt ct x -> x <> None ->
  forall t, In t (match ct with Some c => remove_timer c ts | None => ts end) ->
            cb t = CbConnect \/ cb t = CbConnectTimeout -> False.
Proof.
  intros ts nt ct x H Hx t Ht Hcb.
  pose proof (TOK_cleared ts nt ct x H) as Hc.
  assert (Hin : In t ts) by (destruct ct; [eapply In_remove_timer|]; exact Ht).
  destruct Hcb as [Hcb|Hcb].
  - destruct H as (_ & _ & _ & H4 & _); apply Hx, (H4 t Hin Hcb).
  - exact (TOK_no_timeout _ _ _ t Hc Ht Hcb).
Qed.

Lemma flush_timers_cb : forall len i id t0 dl t,
  In t (flush_timers len i id t0 dl) -> exists k, cb t = CbQueueSend k.
Proof.
  induction i as [|i IH]; simpl; intros id t0 dl t Ht; [contradiction|].
  destruct Ht as [<-|Ht]; [eexists; reflexivity|eapply IH, Ht].
Qed.

Lemma unopened_step : forall w e,
  timers_ok w -> unopened_while_waiting w -> enabled w e = true ->
  unopened_while_waiting (step w e).
Proof.
  unfold unopened_while_waiting, timers_ok; intros w e Hok H He.
  cases_event e; break_world w; try exact H.
  - destruct x; methods; split_ifs; unfold_methods; exact H.
  - destruct x; methods; exact H.
  - destruct x; methods; exact H.
  - destruct x; methods; exact H.
  - (* open *)
    destruct x as [x|]; [clear He|discriminate].
    assert (Hx : Some x <> (None : option nat)) by discriminate.
    pose proof (waiting_cleared ts nt ct (Some x) Hok Hx) as Hnone.
    destruct wF, ct; methods; intros t Ht Hcb.
    + apply (H t); [eapply In_remove_timer, Ht|exact Hcb].
    + apply (H t Ht Hcb).
    + exfalso. apply in_app_iff in Ht as [Ht|Ht]; [exact (Hnone t Ht Hcb)|].
      destruct (flush_timers_cb _ _ _ _ _ _ Ht) as [k Hk]; rewrite Hk in Hcb.
      destruct Hcb; discriminate.
    + exfalso. apply in_app_iff in Ht as [Ht|Ht]; [exact (Hnone t Ht Hcb)|].
      destruct (flush_timers_cb _ _ _ _ _ _ Ht) as [k Hk]; rewrite Hk in Hcb.
      destruct Hcb; discriminate.
  - (* close *)
    destruct wF, hU, hO, ct; methods; intros t Ht Hcb; try reflexivity;
      first [apply (H t Ht Hcb)
            |apply (H t); [eapply In_remove_timer, Ht|exact Hcb]].
  - methods; exact H.
  - methods; exact H.
  - (* timer *)
    unfold step; cbn [timers now].
    destruct (find_timer i ts) as [t|] eqn:Hf; [|exact H].
    destruct (due t <=? n); [|exact H].
    destruct (find_timer_In _ _ _ Hf) as [Hin Hid].
    assert (Hsub : forall t', In t' (remove_timer i ts) ->
                              cb t' = CbConnect \/ cb t' = CbConnectTimeout ->
                              hO = false).
    { intros t' Ht'; apply H; eapply In_remove_timer, Ht'. }
    destruct (cb t) eqn:Hcb.
    + assert (HhO : hO = false) by (apply (H t Hin); left; exact Hcb).
      methods; intros; exact HhO.
    + destruct x; methods; exact Hsub.
    + destruct x; methods; split_ifs; unfold_methods; exact Hsub.
  - unfold step; destruct (0 <=? ms); exact H.
Qed.

Lemma reachable_unopened : forall w, reachable w -> unopened_while_waiting w.
Proof.
  induction 1 as [u ps|w e Hr IH He].
  - intros t Ht _; reflexivity.
  - apply unopened_step; [apply reachable_timers_ok, Hr|exact IH|exact He].
Qed.

Lemma remove_timer_absent : forall id ts,
  find_timer id ts = None -> remove_timer id ts = ts.
Proof.
  unfold find_timer; induction ts as [|t ts IH]; simpl; intros H; [reflexivity|].
  destruct (Nat.eqb (tid t) id); [discriminate|f_equal; apply IH, H].
Qed.

(** X7: a connect attempt whose timeout fires (not forced, no unload) is
    never reported through the close handler.  The timeout notification and
    the close asked of the transport are all that is logged; the transport's
    close signal then logs nothing, clears [isRetrying], counts the failed
    attempt and arms the next connect. *)
Theorem connect_timeout_is_not_a_close :
  forall (w : World) (id : nat) (tm : timer) (raw : string),
    reachable w ->
    find_timer id (timers w) = Some tm -> cb tm = CbConnectTimeout ->
    due tm <= now w ->
    wasForced (sock w) = false -> hasUnloaded (sock w) = false ->
    let w1 := step w (TimerFires id) in
    let w2 := step w1 (TransportClose raw) in
    exists x,
      ws (sock w) = Some x
      /\ hasOpened (sock w) = false
      /\ log w1 = log w ++ trigger_effects (sock w) (debugAll w) ontimeout EvUndefined
                        ++ [WsClose x]
      /\ log w2 = log w1
      /\ isRetrying (sock w2) = false
      /\ ws (sock w2) = None
      /\ attempts (sock w2) = attempts (sock w) + 1
      /\ timers w2 = remove_timer id (timers w)
                     ++ [mkTimer (nextTimer w)
                                 (now w + Z.max 0 (reconnect_interval (sock w)))
                                 CbConnect].
Proof.
  intros w id tm raw Hr Hf Hcb Hdue Hforced Hunl w1 w2.
  pose proof (reachable_timers_ok w Hr) as Hok.
  destruct (find_timer_In _ _ _ Hf) as [Hin Hid].
  assert (HhO : hasOpened (sock w) = false).
  { apply (reachable_unopened w Hr tm Hin); right; exact Hcb. }
  destruct Hok as (_ & Hnd & Hto & _).
  destruct (Hto tm Hin Hcb) as [Hct Hws]; rewrite Hid in Hct.
  destruct (ws (sock w)) as [x0|] eqn:Ex; [clear Hws|exfalso; apply Hws; reflexivity].
  exists x0; split; [reflexivity|split; [exact HhO|]].
  assert (E1 : w1 = step w (TimerFires id)) by reflexivity.
  rewrite (timeout_fires w id tm x0 Hf Hcb Hdue Ex) in E1.
  assert (E2 : w2 = step w1 (TransportClose raw)) by reflexivity.
  rewrite unexpected_close_eq in E2 by (rewrite E1; assumption).
  pose proof (find_timer_remove id (timers w) Hnd) as Hgone.
  pose proof (remove_timer_absent id _ Hgone) as Habs.
  rewrite E2, E1; clear E1 E2 w1 w2.
  break_world w; subst.
  unfold_methods. rewrite Habs.
  repeat split; try reflexivity.
  rewrite app_nil_r; reflexivity.
Qed.

Lemma connect_timeout_is_not_a_close_witness :
  let w := run (new_RcSocket "ws://host" [])
               [OwnerAssignHandler onclose true; OwnerAssignHandler ontimeout true;
                TimerFires 0%nat; TimePasses 2500] in
  let w1 := step w (TimerFires 1%nat) in
  let w2 := step w1 (TransportClose "failed") in
  log w1 = log w ++ [Handler ontimeout EvUndefined; WsClose 0%nat]
  /\ log w2 = log w1
  /\ attempts (sock w2) = 2.
Proof.
  intros w w1 w2.
  assert (Hr : reachable w).
  { repeat (apply reachable_step; [|reflexivity]); apply reachable_new. }
  destruct (connect_timeout_is_not_a_close w 1%nat
              (mkTimer 1%nat 2500 CbConnectTimeout) "failed" Hr
              eq_refl eq_refl ltac:(vm_compute; discriminate) eq_refl eq_refl)
    as (x & Hx & _ & H1 & H2 & _ & _ & H3 & _).
  fold w1 in H1, H2, H3; fold w2 in H2, H3.
  vm_compute in Hx; injection Hx as <-.
  split; [exact H1|split; [exact H2|exact H3]].
Defined.

(** ** Flushing *)

Lemma send_usable : forall w x d,
  ws (sock w) = Some x -> truthy (readyState (sock w)) = true ->
  step w (OwnerSend d) = emit (WsSend x d) w.
Proof.
  intros w x0 d Hws Hrs; unfold step, send; rewrite Hws, Hrs; reflexivity.
Qed.

(** X8: when the open signal arrives (not forced) the open notification goes
    out first and one timer per queued entry is armed: the [k]-th (from 0)
    is due [delay * (k + 1)] ms later and reads the entry of rank [k + 1],
    oldest first.  If the transport stays usable and nothing else touches
    the queue, firing them in that order hands every queued payload to the
    transport once, oldest first, and leaves the queue empty. *)
Theorem queued_payloads_flush_in_order :
  forall (w : World) (raw : string) (x : nat) (extra : Z),
    reachable w -> ws (sock w) = Some x -> wasForced (sock w) = false ->
    0 <= extra ->
    let q := queue (sock w) in
    let m := List.length q in
    let w1 := step w (TransportOpen raw) in
    let w2 := run w1 (TimePasses (Z.max 0 (delay (sock w) * Z.of_nat m) + extra)
                      :: map TimerFires (seq (nextTimer w) m)) in
    timers w1 = timers (clearTimeout (connectTimer (sock w)) w)
                ++ flush_timers m m (nextTimer w) (now w) (delay (sock w))
    /\ (forall k, (k < m)%nat ->
          nth_error (flush_timers m m (nextTimer w) (now w) (delay (sock w))) k
          = Some (mkTimer (nextTimer w + k)
                          (now w + Z.max 0 (delay (sock w) * Z.of_nat (k + 1)))
                          (CbQueueSend (m - 1 - k)))
          /\ nth (m - 1 - k) q JUndefined = nth k (rev q) JUndefined)
    /\ log w2 = log w ++ trigger_effects (sock w) (debugAll w) onopen (EvRaw raw)
                      ++ map (WsSend x) (rev q)
    /\ queue (sock w2) = []
    /\ timers w2 = timers (clearTimeout (connectTimer (sock w)) w).
Proof.
  intros w raw x0 extra Hr Hws Hf Hextra q m w1 w2.
  pose proof (reachable_timers_ok w Hr) as Hok.
  destruct (flush_delivers_in_order w raw x0 extra Hok Hws Hf Hextra)
    as (Hlog & Hq & Ht).
  fold q m w1 w2 in Hlog, Hq, Ht.
  assert (E1 : w1 = step w (TransportOpen raw)) by reflexivity.
  rewrite (open_eq w raw Hf) in E1; fold q m in E1.
  split; [rewrite E1; reflexivity|].
  split.
  { intros k Hk; split.
    - rewrite flush_timers_rank by lia.
      replace (m - m + k + 1)%nat with (k + 1)%nat by lia; reflexivity.
    - rewrite rev_nth by exact Hk. f_equal; lia. }
  split; [|split; assumption].
  rewrite Hlog, E1; cbn [log]; rewrite <- app_assoc; reflexivity.
Qed.

Lemma queued_payloads_flush_in_order_witness :
  let w := run (new_RcSocket "ws://host" [])
               [TimerFires 0%nat; OwnerSend (JData "a"); OwnerSend (JData "b");
                OwnerSend (JData "c")] in
  let w2 := run (step w (TransportOpen "open"))
                [TimePasses 300; TimerFires 2%nat; TimerFires 3%nat;
                 TimerFires 4%nat] in
  log w2 = log w ++ [WsSend 0%nat (JData "a"); WsSend 0%nat (JData "b");
                     WsSend 0%nat (JData "c")]
  /\ queue (sock w2) = [].
Proof.
  intros w w2.
  assert (Hr : reachable w).
  { repeat (apply reachable_step; [|reflexivity]); apply reachable_new. }
  destruct (queued_payloads_flush_in_order w "open" 0%nat 0 Hr
              eq_refl eq_refl (Z.le_refl 0)) as (_ & _ & Hlog & Hq & _).
  vm_compute in Hlog, Hq |- *.
  split; [exact Hlog|exact Hq].
Defined.

(** X9: a payload sent right after the open signal, while the flush is still
    pending, goes to the transport at once and so ahead of every payload
    queued before it; the queued ones follow, oldest first. *)
Theorem send_after_open_overtakes_queue :
  forall (w : World) (raw : string) (x : nat) (d : jsval) (extra : Z),
    reachable w -> ws (sock w) = Some x -> wasForced (sock w) = false ->
    0 <= extra ->
    let q := queue (sock w) in
    let m := List.length q in
    let w1 := step w (TransportOpen raw) in
    let w2 := run w1 (OwnerSend d
                      :: TimePasses (Z.max 0 (delay (sock w) * Z.of_nat m) + extra)
                      :: map TimerFires (seq (nextTimer w) m)) in
    log w2 = log w1 ++ WsSend x d :: map (WsSend x) (rev q)
    /\ deliveries w2 = deliveries w1 ++ d :: rev q
    /\ queue (sock w2) = [].
Proof.
  intros w raw x0 d extra Hr Hws Hf Hextra q m w1 w2.
  destruct (reachable_timers_ok w Hr) as (Hfresh & _).
  assert (Hpre : forall t', In t' (timers (clearTimeout (connectTimer (sock w)) w)) ->
                            (tid t' < nextTimer w)%nat).
  { intros t' Ht'; apply Hfresh.
    unfold clearTimeout in Ht'; destruct (connectTimer (sock w));
      [eapply In_remove_timer|]; exact Ht'. }
  assert (E1 : w1 = step w (TransportOpen raw)) by reflexivity.
  rewrite (open_eq w raw Hf) in E1; fold q m in E1.
  assert (E : w2 = run (step (step w1 (OwnerSend d))
                             (TimePasses (Z.max 0 (delay (sock w) * Z.of_nat m)
                                          + extra)))
                       (map TimerFires (seq (nextTimer w) m))) by reflexivity.
  rewrite (send_usable w1 x0 d) in E
    by (rewrite E1; cbn [sock ws readyState set_readyState set_attempts
                         set_hasOpened]; auto).
  rewrite time_passes in E by lia.
  rewrite E1 in E.
  unfold set_now, emit in E; cbn [sock debugAll timers nextTimer nextWs now log] in E.
  rewrite (fire_flush m m q _ _ _ _ _ _ (now w) (delay (sock w)) _ _ x0) in E;
    try reflexivity; try lia; try assumption.
  assert (Hlog : log w2 = log w1 ++ WsSend x0 d :: map (WsSend x0) (rev q)).
  { rewrite E, E1; cbn [log]. rewrite <- !app_assoc; reflexivity. }
  split; [exact Hlog|split; [|rewrite E; reflexivity]].
  unfold deliveries; rewrite Hlog, flat_map_app; f_equal.
  cbn [flat_map app]; f_equal.
  clear; induction (rev q) as [|a l IH]; simpl; [reflexivity|f_equal; exact IH].
Qed.

Lemma send_after_open_overtakes_queue_witness :
  let w := run (new_RcSocket "ws://host" [])
               [TimerFires 0%nat; OwnerSend (JData "a"); OwnerSend (JData "b")] in
  deliveries (run (step w (TransportOpen "open"))
                  [OwnerSend (JData "c"); TimePasses 200; TimerFires 2%nat;
                   TimerFires 3%nat])
  = [JData "c"; JData "a"; JData "b"].
Proof.
  intros w.
  assert (Hr : reachable w).
  { repeat (apply reachable_step; [|reflexivity]); apply reachable_new. }
  destruct (send_after_open_overtakes_queue w "open" 0%nat (JData "c") 0 Hr
              eq_refl eq_refl (Z.le_refl 0)) as (_ & Hd & _).
  vm_compute in Hd |- *; exact Hd.
Defined.

(** X10: a flush timer whose index is no longer inside the queue (the queue
    has shrunk since the flush was armed, as when two flushes overlap) reads
    [undefined]: with a usable transport it hands [undefined] to the
    transport, and pops whatever is last in the queue. *)
Theorem flush_timer_out_of_range_sends_undefined :
  forall (w : World) (id : nat) (t : timer) (i x : nat),
    find_timer id (timers w) = Some t -> cb t = CbQueueSend i -> due t <= now w ->
    ws (sock w) = Some x -> truthy (readyState (sock w)) = true ->
    (List.length (queue (sock w)) <= i)%nat ->
    log (step w (TimerFires id)) = log w ++ [WsSend x JUndefined]
    /\ queue (sock (step w (TimerFires id))) = removelast (queue (sock w))
    /\ timers (step w (TimerFires id)) = remove_timer id (timers w).
Proof.
  intros w id t i x0 Hf Hcb Hdue Hws Hrs Hlen; unfold step; rewrite Hf.
  destruct (Z.leb_spec (due t) (now w)); [|lia].
  rewrite Hcb; unfold run_callback, send; cbn [sock set_timers ws readyState].
  rewrite Hws, Hrs, (nth_overflow _ _ Hlen); auto.
Qed.

Lemma flush_timer_out_of_range_sends_undefined_witness :
  let w := run (new_RcSocket "ws://host" [])
               [OwnerAssignDelay 5000; TimerFires 0%nat; OwnerSend (JData "a");
                TransportOpen "open"; TransportClose "dropped";
                TimePasses 1000; TimerFires 3%nat; TransportOpen "open";
                TimePasses 4000; TimerFires 2%nat; TimePasses 1000] in
  deliveries w = [JData "a"]
  /\ log (step w (TimerFires 5%nat)) = log w ++ [WsSend 1%nat JUndefined].
Proof.
  intros w; split; [reflexivity|].
  apply (flush_timer_out_of_range_sends_undefined w 5%nat
           (mkTimer 5%nat 6000 (CbQueueSend 0)) 0%nat 1%nat);
    try reflexivity; vm_compute; try discriminate; lia.
Defined.

(** X11: a flush timer that fires while no transport is held delivers
    nothing.  The entry it reads is put in front of the queue again, as the
    newest, and the last position (the oldest) is popped: the queue keeps its
    length and no payload reaches a transport. *)
Theorem flush_timer_requeues_without_transport :
  forall (w : World) (id : nat) (t : timer) (i : nat),
    find_timer id (timers w) = Some t -> cb t = CbQueueSend i -> due t <= now w ->
    ws (sock w) = None -> queue (sock w) <> [] ->
    let w' := step w (TimerFires id) in
    queue (sock w') = nth i (queue (sock w)) JUndefined :: removelast (queue (sock w))
    /\ List.length (queue (sock w')) = List.length (queue (sock w))
    /\ log w' = log w
    /\ deliveries w' = deliveries w.
Proof.
  intros w id t i Hf Hcb Hdue Hws Hne w'.
  destruct (flush_timer_without_transport w id t i Hf Hcb Hdue Hws) as [Hq Hl].
  fold w' in Hq, Hl.
  assert (Hq' : queue (sock w')
                = nth i (queue (sock w)) JUndefined :: removelast (queue (sock w))).
  { rewrite Hq; destruct (queue (sock w)) as [|a q]; [contradiction|reflexivity]. }
  split; [exact Hq'|split; [|split; [exact Hl|unfold deliveries; rewrite Hl; reflexivity]]].
  rewrite Hq'; cbn [List.length].
  pose proof (app_removelast_last (l := queue (sock w)) JUndefined Hne) as E.
  rewrite E at 2; rewrite length_app; cbn [List.length]; lia.
Qed.

Lemma flush_timer_requeues_without_transport_witness :
  let w := run (new_RcSocket "ws://host" [])
               [TimerFires 0%nat; OwnerSend (JData "a"); OwnerSend (JData "b");
                TransportOpen "open"; TransportClose "dropped"; TimePasses 100] in
  queue (sock w) = [JData "b"; JData "a"]
  /\ queue (sock (step w (TimerFires 2%nat))) = [JData "a"; JData "b"]
  /\ deliveries (step w (TimerFires 2%nat)) = [].
Proof.
  intros w; split; [reflexivity|].
  destruct (flush_timer_requeues_without_transport w 2%nat
              (mkTimer 2%nat 100 (CbQueueSend 1)) 1%nat
              eq_refl eq_refl (Z.le_refl 100) eq_refl
              ltac:(vm_compute; discriminate)) as (Hq & _ & _ & Hd).
  vm_compute in Hq, Hd |- *; split; [exact Hq|exact Hd].
Defined.

(** ** Debug logging *)

Lemma quiet_trigger_effects : forall s dA name ev,
  filter quiet_effect (trigger_effects s dA name ev)
  = trigger_effects (set_debug false s) false name ev.
Proof.
  intros s dA name ev; unfold trigger_effects; cbn [debug set_debug handlers url orb].
  destruct (debug s || dA), (handlers s name); reflexivity.
Qed.

Lemma quiet_twice : forall l,
  filter quiet_effect (filter quiet_effect l) = filter quiet_effect l.
Proof.
  induction l as [|a l IH]; simpl; [reflexivity|].
  destruct (quiet_effect a) eqn:E; simpl; rewrite ?E, IH; reflexivity.
Qed.

Lemma without_debug_step : forall w e,
  without_debug (step w e) = without_debug (step (without_debug w) e).
Proof.
  intros w e; unfold without_debug; by_cases w e;
    rewrite ?filter_app, ?quiet_trigger_effects, ?quiet_twice;
    cbn [filter quiet_effect set_debug debug url protocols timeout maxRetry delay
         hasUnloaded hasOpened wasForced isRetrying isRefreshing attempts queue ws
         connectTimer readyState handlers];
    try reflexivity.
Qed.

Lemma without_debug_run : forall evs w w',
  without_debug w = without_debug w' ->
  without_debug (run w evs) = without_debug (run w' evs).
Proof.
  induction evs as [|e evs IH]; intros w w' H; simpl; [exact H|].
  apply IH.
  rewrite (without_debug_step w e), (without_debug_step w' e), H; reflexivity.
Qed.

(** X12: the debug flags change nothing but the debug lines.  Two worlds
    that differ only in [debug], [debugAll] and the debug lines already
    logged still differ only in those after any sequence of events: the same
    handler calls and transport operations in the same order, the same
    timers, the same fields. *)
Theorem debug_logging_is_transparent :
  forall (evs : list event) (w w' : World),
    without_debug w = without_debug w' ->
    filter quiet_effect (log (run w evs)) = filter quiet_effect (log (run w' evs))
    /\ timers (run w evs) = timers (run w' evs)
    /\ now (run w evs) = now (run w' evs)
    /\ set_debug false (sock (run w evs)) = set_debug false (sock (run w' evs)).
Proof.
  intros evs w w' H.
  pose proof (without_debug_run evs w w' H) as E.
  split; [exact (f_equal log E)|].
  split; [exact (f_equal timers E)|].
  split; [exact (f_equal now E)|exact (f_equal sock E)].
Qed.

Lemma debug_logging_is_transparent_witness :
  let w := new_RcSocket "ws://host" [] in
  let evs := [OwnerAssignHandler onopen true; TimerFires 0%nat;
              OwnerSend (JData "a"); TransportOpen "open";
              TimePasses 100; TimerFires 2%nat] in
  filter quiet_effect (log (run (step w (OwnerAssignDebugAll true)) evs))
  = log (run w evs)
  /\ List.length (log (run (step w (OwnerAssignDebugAll true)) evs)) = 5%nat
  /\ List.length (log (run w evs)) = 3%nat.
Proof.
  intros w evs.
  destruct (debug_logging_is_transparent evs (step w (OwnerAssignDebugAll true)) w
              eq_refl) as (H & _).
  vm_compute in H |- *.
  split; [exact H|split; reflexivity].
Defined.

(** ** Before the first connect *)

Lemma before_connect_step : forall u0 ps0 w e,
  is_owner_or_clock e = true ->
  (log w = [] /\ ws (sock w) = None /\ readyState (sock w) = None
   /\ timers w = [mkTimer 0%nat 0 CbConnect] /\ 0 <= now w
   /\ url (sock w) = u0 /\ protocols (sock w) = ps0 /\ nextWs w = 0%nat) ->
  (log (step w e) = [] /\ ws (sock (step w e)) = None
   /\ readyState (sock (step w e)) = None
   /\ timers (step w e) = [mkTimer 0%nat 0 CbConnect] /\ 0 <= now (step w e)
   /\ url (sock (step w e)) = u0 /\ protocols (sock (step w e)) = ps0
   /\ nextWs (step w e) = 0%nat)
  /\ rev (queue (sock (step w e))) = rev (queue (sock w)) ++ sent_payloads [e].
Proof.
  intros u0 ps0 w e He (H1 & H2 & H3 & H4 & H5 & H6 & H7 & H8).
  cases_event e; try discriminate He; break_world w; subst;
    try (destruct (Z.leb_spec 0 ms));
    methods; cbn [sent_payloads flat_map app rev];
    rewrite ?app_nil_r; repeat split; auto; lia.
Qed.

(** X13: the constructor connects nothing by itself.  Whatever the owner
    does before the first timer runs (assign handlers, send, even close or
    retry), nothing reaches the outside: no transport, no effect, the one
    connect timer still pending, the payloads sent queued in order.  When
    that timer fires, the transport is created with the constructor's url and
    protocols and [onconnecting] goes to whatever handler is assigned by
    then. *)
Theorem nothing_happens_before_first_connect :
  forall (u : string) (ps : list string) (evs : list event),
    forallb is_owner_or_clock evs = true ->
    let w := run (new_RcSocket u ps) evs in
    log w = []
    /\ ws (sock w) = None
    /\ readyState (sock w) = None
    /\ timers w = [mkTimer 0%nat 0 CbConnect]
    /\ rev (queue (sock w)) = sent_payloads evs
    /\ log (step w (TimerFires 0%nat))
       = NewWebSocket 0%nat u ps
         :: trigger_effects (sock w) (debugAll w) onconnecting EvUndefined
    /\ ws (sock (step w (TimerFires 0%nat))) = Some 0%nat.
Proof.
  intros u ps evs Hevs w.
  assert (H : forall evs w0,
             forallb is_owner_or_clock evs = true ->
             (log w0 = [] /\ ws (sock w0) = None /\ readyState (sock w0) = None
              /\ timers w0 = [mkTimer 0%nat 0 CbConnect] /\ 0 <= now w0
              /\ url (sock w0) = u /\ protocols (sock w0) = ps
              /\ nextWs w0 = 0%nat) ->
             (log (run w0 evs) = [] /\ ws (sock (run w0 evs)) = None
              /\ readyState (sock (run w0 evs)) = None
              /\ timers (run w0 evs) = [mkTimer 0%nat 0 CbConnect]
              /\ 0 <= now (run w0 evs)
              /\ url (sock (run w0 evs)) = u /\ protocols (sock (run w0 evs)) = ps
              /\ nextWs (run w0 evs) = 0%nat)
             /\ rev (queue (sock (run w0 evs)))
                = rev (queue (sock w0)) ++ sent_payloads evs).
  { clear; induction evs as [|e evs IH]; intros w0 Hevs Hinv; simpl in *.
    - split; [exact Hinv|rewrite app_nil_r; reflexivity].
    - apply andb_true_iff in Hevs as [He Hevs].
      destruct (before_connect_step u ps w0 e He Hinv) as [Hinv' Hq].
      destruct (IH (step w0 e) Hevs Hinv') as [Hinv'' Hq'].
      split; [exact Hinv''|].
      fold (run (step w0 e) evs); rewrite Hq', Hq; cbn [sent_payloads flat_map].
      rewrite app_nil_r, <- app_assoc; reflexivity. }
  destruct (H evs (new_RcSocket u ps) Hevs) as [(H1 & H2 & H3 & H4 & H5 & H6 & H7 & H8) Hq].
  { simpl; repeat split; auto; lia. }
  fold w in H1, H2, H3, H4, H5, H6, H7, H8, Hq.
  cbn [new_RcSocket setTimeout snd set_nextTimer set_timers sock queue rev app] in Hq.
  split; [exact H1|split; [exact H2|split; [exact H3|split; [exact H4|]]]].
  split; [exact Hq|].
  rewrite (connect_fires w 0%nat (mkTimer 0%nat 0 CbConnect))
    by (rewrite ?H4; auto).
  rewrite connect_eq; cbn [log ws sock set_timers set_readyState set_connectTimer
                           set_ws nextWs debugAll url protocols].
  rewrite H1, H6, H7, H8; split; reflexivity.
Qed.

Lemma nothing_happens_before_first_connect_witness :
  let w := run (new_RcSocket "ws://host" ["chat"%string])
               [OwnerAssignHandler onconnecting true; OwnerSend (JData "a");
                TimePasses 5; OwnerSend (JData "b")] in
  log w = []
  /\ rev (queue (sock w)) = [JData "a"; JData "b"]
  /\ log (step w (TimerFires 0%nat))
     = [NewWebSocket 0%nat "ws://host" ["chat"%string]; Handler onconnecting EvUndefined].
Proof.
  intros w.
  destruct (nothing_happens_before_first_connect "ws://host"%string ["chat"%string]
              [OwnerAssignHandler onconnecting true; OwnerSend (JData "a");
               TimePasses 5; OwnerSend (JData "b")] eq_refl)
    as (H1 & _ & _ & _ & Hq & Hl & _).
  fold w in H1, Hq, Hl.
  split; [exact H1|split; [exact Hq|]].
  vm_compute in Hl |- *; exact Hl.
Defined.

(** ** Messages and errors *)

(** X14: message and error signals are only proxied.  Any run of them
    leaves every field of the object, the timers and the clock as they were
    (an error arms no reconnect and closes nothing) and logs, signal by
    signal and in order, the notification carrying the transport's own
    event. *)
Theorem messages_and_errors_are_only_proxied :
  forall (evs : list event) (w : World),
    forallb is_proxied evs = true ->
    sock (run w evs) = sock w
    /\ timers (run w evs) = timers w
    /\ now (run w evs) = now w
    /\ log (run w evs)
       = log w ++ flat_map (proxied_effects (sock w) (debugAll w)) evs.
Proof.
  induction evs as [|e evs IH]; intros w Hevs; simpl in *.
  - rewrite app_nil_r; auto.
  - apply andb_true_iff in Hevs as [He Hevs].
    assert (Hstep : step w e
                    = mkWorld (sock w) (debugAll w) (timers w) (nextTimer w)
                              (nextWs w) (now w)
                              (log w ++ proxied_effects (sock w) (debugAll w) e)).
    { destruct e; try discriminate He; simpl;
        unfold _onmessage, _onerror; rewrite trigger_eq; reflexivity. }
    fold (run (step w e) evs).
    destruct (IH (step w e) Hevs) as (H1 & H2 & H3 & H4).
    rewrite H1, H2, H3, H4, Hstep; cbn [sock timers now log debugAll].
    rewrite <- app_assoc; auto.
Qed.

Lemma messages_and_errors_are_only_proxied_witness :
  let w := run (new_RcSocket "ws://host" [])
               [OwnerAssignHandler onmessage true; TimerFires 0%nat;
                TransportOpen "open"] in
  let w' := run w [TransportMessage "m1"; TransportError "e1";
                   TransportMessage "m2"] in
  log w' = log w ++ [Handler onmessage (EvRaw "m1"); Handler onmessage (EvRaw "m2")]
  /\ timers w' = timers w
  /\ sock w' = sock w.
Proof.
  intros w w'.
  destruct (messages_and_errors_are_only_proxied
              [TransportMessage "m1"; TransportError "e1"; TransportMessage "m2"]
              w eq_refl) as (H1 & H2 & _ & H4).
  fold w' in H1, H2, H4.
  split; [|split; [exact H2|exact H1]].
  vm_compute in H4 |- *; exact H4.
Defined.

(** ** The connect timeout is alone *)

Lemma NoDup_tid_inj : forall (ts : list timer) t t',
  NoDup (map tid ts) -> In t ts -> In t' ts -> tid t = tid t' -> t = t'.
Proof.
  induction ts as [|a ts IH]; intros t t' Hnd Ht Ht' E; [destruct Ht|].
  simpl in Hnd; inversion Hnd as [|? ? Hn Hd]; subst.
  destruct Ht as [<-|Ht], Ht' as [<-|Ht'].
  - reflexivity.
  - exfalso; apply Hn; rewrite E; apply in_map, Ht'.
  - exfalso; apply Hn; rewrite <- E; apply in_map, Ht.
  - apply IH; assumption.
Qed.

(** X15: in every reachable state at most one connect timeout is pending;
    it is the timer [connectTimer] names, a transport is held while it is
    pending, no connect is pending beside it, and no two pending timers share
    an id. *)
Theorem one_connect_timeout_at_a_time :
  forall w : World,
    reachable w ->
    NoDup (map tid (timers w))
    /\ forall t, In t (timers w) -> cb t = CbConnectTimeout ->
         connectTimer (sock w) = Some (tid t)
         /\ ws (sock w) <> None
         /\ pending_connects w = 0%nat
         /\ forall t', In t' (timers w) -> cb t' = CbConnectTimeout -> t' = t.
Proof.
  intros w Hr.
  pose proof (reachable_timers_ok w Hr) as Hok.
  pose proof Hok as (Hfresh & Hnd & Hto & Hco & Hone).
  split; [exact Hnd|].
  intros t Ht Hcb; destruct (Hto t Ht Hcb) as [Hct Hws].
  split; [exact Hct|split; [exact Hws|split]].
  - apply transport_excludes_connect; [exact Hok|exact Hws].
  - intros t' Ht' Hcb'; destruct (Hto t' Ht' Hcb') as [Hct' _].
    apply (NoDup_tid_inj (timers w)); try assumption.
    rewrite Hct in Hct'; injection Hct' as E; symmetry; exact E.
Qed.

Lemma one_connect_timeout_at_a_time_witness :
  let w := run (new_RcSocket "ws://host" [])
               [TimerFires 0%nat; TransportClose "refused"; TimePasses 1000;
                TimerFires 2%nat] in
  timers w = [mkTimer 3%nat 3500 CbConnectTimeout]
  /\ connectTimer (sock w) = Some 3%nat.
Proof.
  intros w.
  assert (Ht : timers w = [mkTimer 3%nat 3500 CbConnectTimeout])
    by (vm_compute; reflexivity).
  split; [exact Ht|].
  assert (Hr : reachable w).
  { repeat (apply reachable_step; [|reflexivity]); apply reachable_new. }
  destruct (one_connect_timeout_at_a_time w Hr) as [_ H].
  rewrite Ht in H.
  destruct (H (mkTimer 3%nat 3500 CbConnectTimeout) (or_introl eq_refl) eq_refl)
    as [Hct _].
  exact Hct.
Defined.
